(** * Verifiable-map build orchestrator (sumdb map builder)

    A shallow embedding of [main], [sinkFromFlags], [tileToDBRowFn],
    [tileFromDBRowFn], [newSumDBMirrorFromFlags], [getEntryMetadata] and
    [beamSource] of the map-building command, and the properties of the
    build orchestration proved about them.

    Also embedded are the rest of the command ([BeamGLogger.Log]), the
    Tritter service stubs and descriptor set-up, and the feed-to-github
    script, with the properties their code shows.

    The command is straight-line control code around external collaborators
    (the SQLite log mirror, the tile database, the Beam dataflow engine and
    the batchmap tree builder).  Every call that leaves the process is
    recorded as an [Event] of a trace, and what the collaborator answers is
    read from a [World]; [glog.Exitf] ends the run with a [Fatal] outcome. *)

From Stdlib Require Import ZArith List String Bool Lia.
From Stdlib Require Import Permutation Ascii.
Import ListNotations.

Local Open Scope string_scope.
Local Open Scope list_scope.
Local Open Scope Z_scope.

(** ** Data *)

(** Go's [[]byte]. *)
Definition bytes := list Byte.byte.

(** Go [error] values.  [ErrNoRows] is [sql.ErrNoRows]; [ErrLib] is an error
    produced inside an external library; [Errorf] is [fmt.Errorf] with its
    format and its string arguments, [ErrorfWrap] one that ends in [%v] of
    another error. *)
Inductive error : Type :=
| ErrNoRows
| ErrLib (msg : string)
| Errorf (format : string) (args : list string)
| ErrorfWrap (format : string) (args : list string) (cause : error).

(** A Go [(value, error)] result. *)
Inductive result (A : Type) : Type :=
| Ok (a : A)
| Err (e : error).
Arguments Ok {A} a.
Arguments Err {A} e.

(** Arguments of a [glog.Exitf] format. *)
Inductive Arg : Type :=
| AInt (z : Z)
| AErr (e : error).

(** The message of a [glog.Exitf]: the format string of the source and its
    arguments. *)
Record Fatal : Type := Exitf_msg { fatal_format : string; fatal_args : list Arg }.

(** The command-line flags, with the names of the source. *)
Record Flags : Type := {
  sumDBString : string;
  mapDBString : string;
  treeID : Z;
  prefixStrata : Z;
  count : Z;
  batchSize : Z;
  incrementalUpdate : bool;
  buildVersionList : bool
}.

(** [crypto.Hash]; the command fixes [hash = crypto.SHA512_256]. *)
Inductive Hash : Type := SHA512_256.
Definition hash : Hash := SHA512_256.

(** The SQL statements the command issues.  The two parameterised ones are
    built with [fmt.Sprintf] in the source. *)
Inductive SqlQuery : Type :=
| SelectLatestCheckpoint
    (* SELECT checkpoint FROM checkpoints ORDER BY datetime DESC LIMIT 1 *)
| SelectCountLeafMetadata
    (* SELECT COUNT( * ) FROM leafMetadata *)
| SelectLeafMetadataRange (start end_ : Z)
    (* SELECT * FROM leafMetadata WHERE id >= %d AND id < %d *)
| SelectTilesAtRevision (revision : Z).
    (* SELECT * FROM tiles WHERE revision=%d *)

(** [MapTile] is the schema format of the Map database. *)
Record MapTile : Type := {
  Revision : Z;
  Path : bytes;
  Tile : bytes
}.

(** The two element-wise functions this command registers with Beam. *)
Inductive DoFn : Type :=
| tileFromDBRowFn_
| tileToDBRowFn_ (Revision : Z).

(** The dataflow graph, as the value the Beam constructors build. *)
Inductive PCollection : Type :=
| databaseio_Query (scope driver dsn : string) (q : SqlQuery)
| pipeline_CreateEntries (treeID : Z) (records : PCollection)
| pipeline_MakeVersionList (records : PCollection)
| beam_Flatten (a b : PCollection)
| beam_ParDo (scope : string) (fn : DoFn) (input : PCollection)
| batchmap_Update_node (tiles entries : PCollection) (treeID : Z) (h : Hash) (prefixStrata : Z)
| batchmap_Create_node (entries : PCollection) (treeID : Z) (h : Hash) (prefixStrata : Z).

(** The pipeline handed to [beamx.Run]: the rows and the sink that
    [databaseio.WriteWithBatchSize] attaches to them. *)
Record Pipeline : Type := {
  sink_scope : string;
  sink_batchSize : Z;
  sink_driver : string;
  sink_dsn : string;
  sink_table : string;
  sink_rows : PCollection
}.

(** ** The outside world *)

(** A row of the mirror's [leafMetadata] table: its [id] column and the rest. *)
Record LeafRow : Type := { leaf_id : Z; leaf_data : bytes }.

(** What the SQLite file of the log mirror holds: the [checkpoints] table as
    (datetime, checkpoint) rows and the [leafMetadata] table. *)
Record SumDBFile : Type := {
  checkpoints : list (Z * bytes);
  leafMetadata : list LeafRow
}.

(** Everything the command reads from outside itself.  The tile database
    ([mapdb.TileDB]), [batchmap] and [beamx] are separate packages; their
    answers are taken as given, as functions of the arguments of the call. *)
Record World : Type := {
  sql_Open : string -> option error;
  sumdb_file : SumDBFile;
  checkpoint_scan_fault : option error;
  count_scan_fault : option error;
  mapdb_NewTileDB : string -> option error;
  tiledb_Init : option error;
  tiledb_NextWriteRevision : result Z;
  tiledb_LatestRevision : result (Z * bytes * Z);
  batchmap_Create : PCollection -> Z -> Hash -> Z -> option error;
  batchmap_Update : PCollection -> PCollection -> Z -> Hash -> Z -> option error;
  beamx_Run : Pipeline -> option error;
  tiledb_WriteRevision : Z -> bytes -> Z -> option error
}.

(** ** Traces *)

(** One event per call that leaves the process, in program order. *)
Inductive Event : Type :=
| EvSqlOpen (dsn : string)
| EvNewTileDB (path : string)
| EvTileDBInit
| EvNextWriteRevision
| EvQueryRow (q : SqlQuery)
| EvLatestRevision
| EvBeamInit
| EvNewPipeline
| EvBatchmapCreate (entries : PCollection) (treeID : Z) (h : Hash) (prefixStrata : Z)
| EvBatchmapUpdate (tiles entries : PCollection) (treeID : Z) (h : Hash) (prefixStrata : Z)
| EvRun (p : Pipeline)
| EvWriteRevision (rev : Z) (checkpoint : bytes) (entries : Z).

Inductive Outcome (A : Type) : Type :=
| Done (a : A)
| Exited (m : Fatal).
Arguments Done {A} a.
Arguments Exited {A} m.

(** A run: the events performed, and how it ended. *)
Definition Proc (A : Type) : Type := (list Event * Outcome A)%type.

Definition ret {A} (a : A) : Proc A := ([], Done a).

Definition bind {A B} (c : Proc A) (k : A -> Proc B) : Proc B :=
  match c with
  | (t, Done a) => let (t', o) := k a in (t ++ t', o)
  | (t, Exited m) => (t, Exited m)
  end.

Definition emit (e : Event) : Proc unit := ([e], Done tt).

(** [glog.Exitf]: the process terminates here. *)
Definition Exitf {A} (format : string) (args : list Arg) : Proc A :=
  ([], Exited (Exitf_msg format args)).

Definition trace {A} (c : Proc A) : list Event := fst c.
Definition outcome {A} (c : Proc A) : Outcome A := snd c.

Declare Scope proc_scope.
Delimit Scope proc_scope with proc.
Notation "x <- c ;; k" := (bind c (fun x => k))
  (at level 61, c at next level, right associativity) : proc_scope.
Notation "c ;; k" := (bind c (fun _ => k))
  (at level 61, right associativity) : proc_scope.
Local Open Scope proc_scope.

(** ** The log mirror *)

(** [sumDBMirror]: the path it was opened from and its [*sql.DB] handle,
    which here is the file the handle reads. *)
Record sumDBMirror : Type := {
  dbString : string;
  db : SumDBFile
}.

(** [len(s) == 0] on a Go string. *)
Definition is_empty (s : string) : bool :=
  match s with EmptyString => true | _ => false end.

(** [newSumDBMirrorFromFlags].  [sql.Open]'s error is returned next to the
    mirror; [main] looks at the error first, so an [Err] stands for the pair. *)
Definition newSumDBMirrorFromFlags (fl : Flags) (w : World) : Proc (result sumDBMirror) :=
  if is_empty (sumDBString fl) then
    ret (Err (Errorf "missing flag: sum_db" []))
  else
    emit (EvSqlOpen (sumDBString fl)) ;;
    match sql_Open w (sumDBString fl) with
    | Some err => ret (Err err)
    | None => ret (Ok {| dbString := sumDBString fl; db := sumdb_file w |})
    end.

(** The row [ORDER BY datetime DESC LIMIT 1] selects: one of greatest
    [datetime] (the earliest such row of the table when several tie). *)
Fixpoint latest_row (rows : list (Z * bytes)) : option (Z * bytes) :=
  match rows with
  | [] => None
  | r :: rest =>
      match latest_row rest with
      | Some r' => if fst r <? fst r' then Some r' else Some r
      | None => Some r
      end
  end.

(** [QueryRow(SELECT checkpoint ...).Scan(&cp)]: [sql.ErrNoRows] when the
    table is empty, the driver's error when the read fails. *)
Definition scan_checkpoint (w : World) (m : sumDBMirror) : result bytes :=
  match checkpoint_scan_fault w with
  | Some err => Err err
  | None =>
      match latest_row (checkpoints (db m)) with
      | Some (_, cp) => Ok cp
      | None => Err ErrNoRows
      end
  end.

(** [QueryRow(SELECT COUNT( * ) ...).Scan(&leafCount)]. *)
Definition scan_count (w : World) (m : sumDBMirror) : result Z :=
  match count_scan_fault w with
  | Some err => Err err
  | None => Ok (Z.of_nat (List.length (leafMetadata (db m))))
  end.

(** [getEntryMetadata] gets the STH and the total number of entries available
    to process.  Its last statement is
    [return cp, leafCount, m.db.QueryRow(...).Scan(&leafCount)]: the value
    returned for [leafCount] is the one [Scan] stored, the call being
    evaluated before the variable is read. *)
Definition getEntryMetadata (w : World) (m : sumDBMirror) : Proc (result (bytes * Z)) :=
  emit (EvQueryRow SelectLatestCheckpoint) ;;
  match scan_checkpoint w m with
  | Err err => ret (Err err)
  | Ok cp =>
      emit (EvQueryRow SelectCountLeafMetadata) ;;
      match scan_count w m with
      | Err err => ret (Err err)
      | Ok leafCount => ret (Ok (cp, leafCount))
      end
  end.

(** [beamSource] returns a PCollection of Metadata, containing entries in
    range [start, end). *)
Definition beamSource (m : sumDBMirror) (scope : string) (start end_ : Z) : PCollection :=
  databaseio_Query scope "sqlite3" (dbString m) (SelectLeafMetadataRange start end_).

(** The rows [SELECT * FROM leafMetadata WHERE id >= start AND id < end]
    yields. *)
Definition rows_in_range (f : SumDBFile) (start end_ : Z) : list LeafRow :=
  filter (fun r => (start <=? leaf_id r) && (leaf_id r <? end_)) (leafMetadata f).

(** ** The tile database *)

(** [*mapdb.TileDB], known by the path it was opened at. *)
Record TileDB : Type := { tiledb_path : string }.

(** [sinkFromFlags]. *)
Definition sinkFromFlags (fl : Flags) (w : World) : Proc (result (TileDB * Z)) :=
  if is_empty (mapDBString fl) then
    ret (Err (Errorf "missing flag: map_db" []))
  else
    emit (EvNewTileDB (mapDBString fl)) ;;
    match mapdb_NewTileDB w (mapDBString fl) with
    | Some err =>
        ret (Err (ErrorfWrap "failed to open map DB at %q: %v" [mapDBString fl] err))
    | None =>
        let tiledb := {| tiledb_path := mapDBString fl |} in
        emit EvTileDBInit ;;
        match tiledb_Init w with
        | Some err =>
            ret (Err (ErrorfWrap "failed to Init map DB at %q: %v" [mapDBString fl] err))
        | None =>
            emit EvNextWriteRevision ;;
            match tiledb_NextWriteRevision w with
            | Err err =>
                ret (Err (ErrorfWrap "failed to query for next write revision: %v" [] err))
            | Ok rev => ret (Ok (tiledb, rev))
            end
        end
    end.

(** [mapDB.LatestRevision()]. *)
Definition LatestRevision (w : World) (d : TileDB) : Proc (result (Z * bytes * Z)) :=
  emit EvLatestRevision ;; ret (tiledb_LatestRevision w).

(** [mapDB.WriteRevision(rev, golden, endID)]. *)
Definition WriteRevision (w : World) (d : TileDB) (rev : Z) (cp : bytes) (n : Z)
  : Proc (option error) :=
  emit (EvWriteRevision rev cp n) ;; ret (tiledb_WriteRevision w rev cp n).

(** ** The tree builder and the engine *)

(** [batchmap.Create(s, entries, treeID, hash, prefixStrata)]. *)
Definition Create (w : World) (entries : PCollection) (tid : Z) (h : Hash) (ps : Z)
  : Proc (result PCollection) :=
  emit (EvBatchmapCreate entries tid h ps) ;;
  match batchmap_Create w entries tid h ps with
  | Some err => ret (Err err)
  | None => ret (Ok (batchmap_Create_node entries tid h ps))
  end.

(** [batchmap.Update(s, tiles, entries, treeID, hash, prefixStrata)]. *)
Definition Update (w : World) (tiles entries : PCollection) (tid : Z) (h : Hash) (ps : Z)
  : Proc (result PCollection) :=
  emit (EvBatchmapUpdate tiles entries tid h ps) ;;
  match batchmap_Update w tiles entries tid h ps with
  | Some err => ret (Err err)
  | None => ret (Ok (batchmap_Update_node tiles entries tid h ps))
  end.

(** [beamx.Run(ctx, p)]. *)
Definition Run (w : World) (p : Pipeline) : Proc (option error) :=
  emit (EvRun p) ;; ret (beamx_Run w p).

(** ** The command *)

(** Lines 81-104 of [main]: the range [startID, endID) of entries to build
    from.  Returns [(startID, endID, lastMapRev)]; [startID] and [lastMapRev]
    keep their Go zero values in full mode. *)
Definition resolveRange (fl : Flags) (w : World) (mapDB : TileDB) (totalLeaves : Z)
  : Proc (Z * Z * Z) :=
  if totalLeaves <? count fl then
    Exitf "Wanted %d leaves but only %d available" [AInt (count fl); AInt totalLeaves]
  else
  (* endID is determined by the count flag and the number of entries
     available in SumDB. *)
  let endID := if count fl <? 0 then totalLeaves else count fl in
  (* startID is 0, unless we are updating the map and there is a previous
     revision. *)
  if incrementalUpdate fl then
    r <- LatestRevision w mapDB ;;
    match r with
    | Err err => Exitf "Failed to get LatestRevision: %v" [AErr err]
    | Ok (lastMapRev, _, startID) =>
        if startID >=? endID then
          Exitf "startID >= endID (%d > %d)" [AInt startID; AInt endID]
        else ret (startID, endID, lastMapRev)
    end
  else ret (0, endID, 0).

(** Lines 116-127 of [main]: the tree transform. *)
Definition buildTiles (fl : Flags) (w : World) (lastMapRev : Z) (entries : PCollection)
  : Proc PCollection :=
  r <- (if incrementalUpdate fl then
          let mapTiles :=
            databaseio_Query "" "sqlite3" (mapDBString fl) (SelectTilesAtRevision lastMapRev) in
          Update w (beam_ParDo "" tileFromDBRowFn_ mapTiles) entries
                 (treeID fl) hash (prefixStrata fl)
        else
          Create w entries (treeID fl) hash (prefixStrata fl)) ;;
  match r with
  | Err err => Exitf "Failed to create pipeline: %q" [AErr err]
  | Ok allTiles => ret allTiles
  end.

(** [main]. *)
Definition main (fl : Flags) (w : World) : Proc unit :=
  if buildVersionList fl && incrementalUpdate fl then
    Exitf "Unsupported: build_version_list cannot be used with incremental_update" []
  else
  (* Connect to where we will read from and write to. *)
  r <- newSumDBMirrorFromFlags fl w ;;
  match r with
  | Err err => Exitf "Failed to initialize from local SumDB: %v" [AErr err]
  | Ok sumDB =>
  r <- sinkFromFlags fl w ;;
  match r with
  | Err err => Exitf "Failed to initialize Map DB: %v" [AErr err]
  | Ok (mapDB, rev) =>
  (* Pull out latest information from each DB. *)
  r <- getEntryMetadata w sumDB ;;
  match r with
  | Err err => Exitf "Failed to get latest SumDB entry metadata: %v" [AErr err]
  | Ok (golden, totalLeaves) =>
  range <- resolveRange fl w mapDB totalLeaves ;;
  let '(startID, endID, lastMapRev) := range in
  emit EvBeamInit ;;
  emit EvNewPipeline ;;
  let records := beamSource sumDB "source" startID endID in
  let entries := pipeline_CreateEntries (treeID fl) records in
  let entries :=
    if buildVersionList fl then beam_Flatten entries (pipeline_MakeVersionList records)
    else entries in
  allTiles <- buildTiles fl w lastMapRev entries ;;
  let rows := beam_ParDo "convertoutput" (tileToDBRowFn_ rev) allTiles in
  let p := {| sink_scope := "sink"; sink_batchSize := batchSize fl;
              sink_driver := "sqlite3"; sink_dsn := mapDBString fl;
              sink_table := "tiles"; sink_rows := rows |} in
  (* All of the above constructs the pipeline but doesn't run it. Now we run it. *)
  r <- Run w p ;;
  match r with
  | Some err => Exitf "Failed to execute job: %q" [AErr err]
  | None =>
  r <- WriteRevision w mapDB rev golden endID ;;
  match r with
  | Some err => Exitf "Failed to finalize map revison %d: %v" [AInt rev; AErr err]
  | None => ret tt
  end end end end end.

(** ** Tiles and their rows *)

(** [batchmap.TileLeaf] and [batchmap.Tile], the structs of the tree
    builder's package that the rows carry. *)
Record TileLeaf : Type := {
  leaf_Path : bytes;
  leaf_Hash : bytes
}.

Record batchmap_Tile : Type := {
  tile_Path : bytes;
  tile_RootHash : bytes;
  tile_Leaves : list TileLeaf
}.

(** [encoding/json] at one type: [json.Marshal] and [json.Unmarshal]. *)
Class Json (T : Type) : Type := {
  json_Marshal : T -> result bytes;
  json_Unmarshal : bytes -> result T
}.

(** What the library promises of the pair: decoding what was encoded gives
    the value back. *)
Definition JsonLawful {T : Type} (J : Json T) : Prop :=
  forall (t : T) (bs : bytes), json_Marshal t = Ok bs -> json_Unmarshal bs = Ok t.

(** The zero [MapTile{}]. *)
Definition MapTile_zero : MapTile := {| Revision := 0; Path := []; Tile := [] |}.

(** [tileToDBRowFn] is a struct with the one field [Revision]. *)
Record tileToDBRowFn : Type := { fn_Revision : Z }.

(** [(fn *tileToDBRowFn) ProcessElement]: the row and the error it returns. *)
Definition ProcessElement `{Json batchmap_Tile} (fn : tileToDBRowFn) (t : batchmap_Tile)
  : MapTile * option error :=
  match json_Marshal t with
  | Err err => (MapTile_zero, Some err)
  | Ok bs => ({| Revision := fn_Revision fn; Path := tile_Path t; Tile := bs |}, None)
  end.

(** [tileFromDBRowFn]. *)
Definition tileFromDBRowFn `{Json batchmap_Tile} (t : MapTile) : result batchmap_Tile :=
  match json_Unmarshal (Tile t) with
  | Err err => Err err
  | Ok res => Ok res
  end.



(** ** Observations on runs *)

(** The fatal messages of [main], by the class the error taxonomy gives
    them. *)
Definition ConfigError : Fatal :=
  Exitf_msg "Unsupported: build_version_list cannot be used with incremental_update" [].

Definition RangeError_insufficient (wanted available : Z) : Fatal :=
  Exitf_msg "Wanted %d leaves but only %d available" [AInt wanted; AInt available].

Definition RangeError_no_revision (err : error) : Fatal :=
  Exitf_msg "Failed to get LatestRevision: %v" [AErr err].

Definition RangeError_not_advancing (startID endID : Z) : Fatal :=
  Exitf_msg "startID >= endID (%d > %d)" [AInt startID; AInt endID].

(** The stores open, a revision number [rev] is handed out, and the mirror's
    metadata read succeeds with checkpoint [golden] and [T] entries: the run
    reaches line 81 of [main]. *)
Record Connected (fl : Flags) (w : World) (rev : Z) (golden : bytes) (T : Z) : Prop := {
  conn_flags : buildVersionList fl && incrementalUpdate fl = false;
  conn_sum_db : is_empty (sumDBString fl) = false;
  conn_sql_open : sql_Open w (sumDBString fl) = None;
  conn_map_db : is_empty (mapDBString fl) = false;
  conn_new_tiledb : mapdb_NewTileDB w (mapDBString fl) = None;
  conn_init : tiledb_Init w = None;
  conn_rev : tiledb_NextWriteRevision w = Ok rev;
  conn_cp_fault : checkpoint_scan_fault w = None;
  conn_cp : exists dt, latest_row (checkpoints (sumdb_file w)) = Some (dt, golden);
  conn_count_fault : count_scan_fault w = None;
  conn_count : T = Z.of_nat (List.length (leafMetadata (sumdb_file w)))
}.

(** The events of a run up to line 81. *)
Definition connect_trace (fl : Flags) : list Event :=
  [EvSqlOpen (sumDBString fl); EvNewTileDB (mapDBString fl); EvTileDBInit;
   EvNextWriteRevision; EvQueryRow SelectLatestCheckpoint;
   EvQueryRow SelectCountLeafMetadata].

(** Events that build or run the dataflow graph, and store writes. *)
Definition is_pipeline_event (e : Event) : bool :=
  match e with
  | EvBeamInit | EvNewPipeline | EvBatchmapCreate _ _ _ _
  | EvBatchmapUpdate _ _ _ _ _ | EvRun _ => true
  | _ => false
  end.

Definition is_WriteRevision (e : Event) : bool :=
  match e with EvWriteRevision _ _ _ => true | _ => false end.

Definition is_tree_call (e : Event) : bool :=
  match e with
  | EvBatchmapCreate _ _ _ _ | EvBatchmapUpdate _ _ _ _ _ => true
  | _ => false
  end.

(** Whether a graph reads the [tiles] table anywhere. *)
Fixpoint reads_tiles (c : PCollection) : bool :=
  match c with
  | databaseio_Query _ _ _ (SelectTilesAtRevision _) => true
  | databaseio_Query _ _ _ _ => false
  | pipeline_CreateEntries _ r => reads_tiles r
  | pipeline_MakeVersionList r => reads_tiles r
  | beam_Flatten a b => reads_tiles a || reads_tiles b
  | beam_ParDo _ _ i => reads_tiles i
  | batchmap_Update_node t e _ _ _ => reads_tiles t || reads_tiles e
  | batchmap_Create_node e _ _ _ => reads_tiles e
  end.

Definition event_reads_tiles (e : Event) : bool :=
  match e with
  | EvBatchmapCreate entries _ _ _ => reads_tiles entries
  | EvBatchmapUpdate tiles entries _ _ _ => reads_tiles tiles || reads_tiles entries
  | EvRun p => reads_tiles (sink_rows p)
  | _ => false
  end.

(** The [leafMetadata] range a graph reads its entries from. *)
Definition source_of (fl : Flags) (startID endID : Z) : PCollection :=
  databaseio_Query "source" "sqlite3" (sumDBString fl) (SelectLeafMetadataRange startID endID).

(** The leaves handed to the tree builder for a source. *)
Definition entries_of (fl : Flags) (records : PCollection) : PCollection :=
  if buildVersionList fl then
    beam_Flatten (pipeline_CreateEntries (treeID fl) records)
                 (pipeline_MakeVersionList records)
  else pipeline_CreateEntries (treeID fl) records.

(** The graph [main] runs once the tree transform [allTiles] is built. *)
Definition pipeline_of (fl : Flags) (rev : Z) (allTiles : PCollection) : Pipeline :=
  {| sink_scope := "sink"; sink_batchSize := batchSize fl;
     sink_driver := "sqlite3"; sink_dsn := mapDBString fl;
     sink_table := "tiles";
     sink_rows := beam_ParDo "convertoutput" (tileToDBRowFn_ rev) allTiles |}.

(** ** Range resolution *)

(** The [endID] of lines 86-91. *)
Definition endID_of (fl : Flags) (totalLeaves : Z) : Z :=
  if count fl <? 0 then totalLeaves else count fl.

(** The prior tiles an incremental build feeds to the tree builder: the rows
    of table [tiles] at [lastMapRev], each through [tileFromDBRowFn]. *)
Definition priorTiles (fl : Flags) (lastMapRev : Z) : PCollection :=
  beam_ParDo "" tileFromDBRowFn_
    (databaseio_Query "" "sqlite3" (mapDBString fl) (SelectTilesAtRevision lastMapRev)).

(** ** Concrete runs *)

Definition flags_default : Flags :=
  {| sumDBString := "sum.db"; mapDBString := "map.db"; treeID := 12345;
     prefixStrata := 2; count := -1; batchSize := 250;
     incrementalUpdate := false; buildVersionList := false |}.

Definition with_count (fl : Flags) (c : Z) : Flags :=
  {| sumDBString := sumDBString fl; mapDBString := mapDBString fl; treeID := treeID fl;
     prefixStrata := prefixStrata fl; count := c; batchSize := batchSize fl;
     incrementalUpdate := incrementalUpdate fl; buildVersionList := buildVersionList fl |}.

Definition with_modes (fl : Flags) (incremental versions : bool) : Flags :=
  {| sumDBString := sumDBString fl; mapDBString := mapDBString fl; treeID := treeID fl;
     prefixStrata := prefixStrata fl; count := count fl; batchSize := batchSize fl;
     incrementalUpdate := incremental; buildVersionList := versions |}.

(** A world in which every collaborator answers without error: the mirror
    holds [f], the tile database hands out [next] and reports [latest]. *)
Definition quiet_world (f : SumDBFile) (next : Z) (latest : result (Z * bytes * Z)) : World :=
  {| sql_Open := fun _ => None;
     sumdb_file := f;
     checkpoint_scan_fault := None;
     count_scan_fault := None;
     mapdb_NewTileDB := fun _ => None;
     tiledb_Init := None;
     tiledb_NextWriteRevision := Ok next;
     tiledb_LatestRevision := latest;
     batchmap_Create := fun _ _ _ _ => None;
     batchmap_Update := fun _ _ _ _ _ => None;
     beamx_Run := fun _ => None;
     tiledb_WriteRevision := fun _ _ _ => None |}.

Definition CP1 : bytes := [Byte.x43; Byte.x50; Byte.x31].
Definition CP2 : bytes := [Byte.x43; Byte.x50; Byte.x32].

(** A mirror with [n] entries, ids [0 .. n-1], and the given checkpoints. *)
Definition mirror (cps : list (Z * bytes)) (n : nat) : SumDBFile :=
  {| checkpoints := cps;
     leafMetadata := map (fun i => {| leaf_id := Z.of_nat i; leaf_data := [] |}) (seq 0 n) |}.

(** The formats of the fatal messages of lines 63-80. *)
Definition connect_formats : list string :=
  ["Unsupported: build_version_list cannot be used with incremental_update";
   "Failed to initialize from local SumDB: %v";
   "Failed to initialize Map DB: %v";
   "Failed to get latest SumDB entry metadata: %v"].

(** ** Every run of [main] *)

(** The store events of range resolution, and the one tree-builder call, by
    mode. *)
Definition range_trace (fl : Flags) : list Event :=
  if incrementalUpdate fl then [EvLatestRevision] else [].

Definition tree_call (fl : Flags) (lastMapRev : Z) (entries : PCollection) : Event :=
  if incrementalUpdate fl then
    EvBatchmapUpdate (priorTiles fl lastMapRev) entries (treeID fl) hash (prefixStrata fl)
  else
    EvBatchmapCreate entries (treeID fl) hash (prefixStrata fl).

Definition tree_node (fl : Flags) (lastMapRev : Z) (entries : PCollection) : PCollection :=
  if incrementalUpdate fl then
    batchmap_Update_node (priorTiles fl lastMapRev) entries (treeID fl) hash (prefixStrata fl)
  else
    batchmap_Create_node entries (treeID fl) hash (prefixStrata fl).

Definition tree_error (fl : Flags) (w : World) (lastMapRev : Z) (entries : PCollection)
  : option error :=
  if incrementalUpdate fl then
    batchmap_Update w (priorTiles fl lastMapRev) entries (treeID fl) hash (prefixStrata fl)
  else
    batchmap_Create w entries (treeID fl) hash (prefixStrata fl).

(** Range resolution succeeded with [startID] and [lastMapRev]. *)
Definition resolved (fl : Flags) (w : World) (T startID lastMapRev : Z) : Prop :=
  count fl <= T /\
  if incrementalUpdate fl then
    exists cp, tiledb_LatestRevision w = Ok (lastMapRev, cp, startID)
               /\ startID < endID_of fl T
  else startID = 0 /\ lastMapRev = 0.

(** The runs of [main], by where they end. *)
Inductive RunShape (fl : Flags) (w : World) : Proc unit -> Prop :=
| RunEarly t t' m :
    connect_trace fl = t ++ t' ->
    In (fatal_format m) connect_formats ->
    (forall rev golden T, ~ Connected fl w rev golden T) ->
    RunShape fl w (t, Exited m)
| RunInsufficient rev golden T :
    Connected fl w rev golden T ->
    T < count fl ->
    RunShape fl w (connect_trace fl, Exited (RangeError_insufficient (count fl) T))
| RunNoRevision rev golden T err :
    Connected fl w rev golden T ->
    count fl <= T ->
    incrementalUpdate fl = true ->
    tiledb_LatestRevision w = Err err ->
    RunShape fl w (connect_trace fl ++ [EvLatestRevision],
                   Exited (RangeError_no_revision err))
| RunNotAdvancing rev golden T lastMapRev cp startID :
    Connected fl w rev golden T ->
    count fl <= T ->
    incrementalUpdate fl = true ->
    tiledb_LatestRevision w = Ok (lastMapRev, cp, startID) ->
    endID_of fl T <= startID ->
    RunShape fl w (connect_trace fl ++ [EvLatestRevision],
                   Exited (RangeError_not_advancing startID (endID_of fl T)))
| RunTreeError rev golden T startID lastMapRev err :
    Connected fl w rev golden T ->
    resolved fl w T startID lastMapRev ->
    let entries := entries_of fl (source_of fl startID (endID_of fl T)) in
    tree_error fl w lastMapRev entries = Some err ->
    RunShape fl w (connect_trace fl ++ range_trace fl
                     ++ [EvBeamInit; EvNewPipeline; tree_call fl lastMapRev entries],
                   Exited (Exitf_msg "Failed to create pipeline: %q" [AErr err]))
| RunEngineError rev golden T startID lastMapRev err :
    Connected fl w rev golden T ->
    resolved fl w T startID lastMapRev ->
    let entries := entries_of fl (source_of fl startID (endID_of fl T)) in
    let p := pipeline_of fl rev (tree_node fl lastMapRev entries) in
    tree_error fl w lastMapRev entries = None ->
    beamx_Run w p = Some err ->
    RunShape fl w (connect_trace fl ++ range_trace fl
                     ++ [EvBeamInit; EvNewPipeline; tree_call fl lastMapRev entries;
                         EvRun p],
                   Exited (Exitf_msg "Failed to execute job: %q" [AErr err]))
| RunCommit rev golden T startID lastMapRev :
    Connected fl w rev golden T ->
    resolved fl w T startID lastMapRev ->
    let entries := entries_of fl (source_of fl startID (endID_of fl T)) in
    let p := pipeline_of fl rev (tree_node fl lastMapRev entries) in
    tree_error fl w lastMapRev entries = None ->
    beamx_Run w p = None ->
    RunShape fl w (connect_trace fl ++ range_trace fl
                     ++ [EvBeamInit; EvNewPipeline; tree_call fl lastMapRev entries;
                         EvRun p; EvWriteRevision rev golden (endID_of fl T)],
                   match tiledb_WriteRevision w rev golden (endID_of fl T) with
                   | Some err =>
                       Exited (Exitf_msg "Failed to finalize map revison %d: %v"
                                         [AInt rev; AErr err])
                   | None => Done tt
                   end).

(** ** Order of allocation and range resolution *)

Definition is_alloc (e : Event) : bool :=
  match e with EvNextWriteRevision => true | _ => false end.

(** The store reads range resolution depends on: the mirror's metadata
    queries and the tile database's latest revision. *)
Definition is_range_event (e : Event) : bool :=
  match e with EvQueryRow _ | EvLatestRevision => true | _ => false end.

(** Every [q]-event of the trace has a [p]-event before it. *)
Fixpoint preceded_by (p q : Event -> bool) (t : list Event) : bool :=
  match t with
  | [] => true
  | e :: t' => negb (q e) && (p e || preceded_by p q t')
  end.

(** The order the numbered steps give: when the revision number is
    allocated, the reads of range resolution lie behind it. *)
Definition allocation_after_resolution (c : Proc unit) : Prop :=
  forall pre post,
    trace c = pre ++ EvNextWriteRevision :: post ->
    (exists q, In (EvQueryRow q) pre)
    /\ forall e, In e post -> is_range_event e = false.

Definition is_RangeError (m : Fatal) : Prop :=
  (exists wanted available, m = RangeError_insufficient wanted available)
  \/ (exists err, m = RangeError_no_revision err)
  \/ (exists startID endID, m = RangeError_not_advancing startID endID).

(** The run of [count=2000] against a 1000-entry mirror, default flags
    otherwise and no revision yet. *)
Definition flags_count_2000 : Flags := with_count flags_default 2000.
Definition world_1000 : World := quiet_world (mirror [(1, CP1)] 1000) 0 (Err ErrNoRows).

(** An empty mirror that holds one checkpoint. *)
Definition world_empty : World := quiet_world (mirror [(1, CP1)] 0) 0 (Err ErrNoRows).

(** A mirror that has neither entries nor a checkpoint. *)
Definition world_no_checkpoint : World := quiet_world (mirror [] 0) 0 (Err ErrNoRows).

(** An incremental build after the mirror grew from 1000 to 1500 entries:
    revision 0 covers 1000 entries, the next revision number is 1. *)
Definition flags_incremental : Flags := with_modes flags_default true false.
Definition world_grown : World :=
  quiet_world (mirror [(1, CP1); (2, CP2)] 1500) 1 (Ok (0, CP1, 1000)).

(** ** [encoding/json] on tiles

    The text [json.Marshal] produces for a [batchmap.Tile]: an object with the
    fields in declaration order, a [[]byte] as standard padded base64 in
    quotes, a nil slice as [null]; and a reader of that text. *)

Module Base64.

Definition alphabet : bytes :=
  list_byte_of_string "ABCDEFGHIJKLMNOPQRSTUVWXYZabcdefghijklmnopqrstuvwxyz0123456789+/".

Definition pad : Byte.byte := Byte.x3d.

Definition val (b : Byte.byte) : Z := Z.of_N (Byte.to_N b).

Definition byte_of (z : Z) : option Byte.byte := Byte.of_N (Z.to_N z).

(** The character of a 6-bit value. *)
Definition char_of (i : Z) : Byte.byte := nth (Z.to_nat i) alphabet Byte.x00.

Fixpoint index_of (c : Byte.byte) (l : bytes) (i : Z) : option Z :=
  match l with
  | [] => None
  | x :: l' => if Byte.eqb c x then Some i else index_of c l' (i + 1)
  end.

(** The 6-bit value of a character of the alphabet. *)
Definition sextet_of (c : Byte.byte) : option Z := index_of c alphabet 0.

(** [base64.StdEncoding.EncodeToString]. *)
Fixpoint encode (src : bytes) : bytes :=
  match src with
  | a :: b :: c :: rest =>
      let n := (val a * 256 + val b) * 256 + val c in
      char_of (n / 262144) :: char_of (n / 4096 mod 64)
        :: char_of (n / 64 mod 64) :: char_of (n mod 64) :: encode rest
  | [a; b] =>
      let n := (val a * 256 + val b) * 4 in
      [char_of (n / 4096); char_of (n / 64 mod 64); char_of (n mod 64); pad]
  | [a] =>
      let n := val a * 16 in
      [char_of (n / 64); char_of (n mod 64); pad; pad]
  | [] => []
  end.

Definition bytes3 (i0 i1 i2 i3 : Z) : option bytes :=
  let n := ((i0 * 64 + i1) * 64 + i2) * 64 + i3 in
  match byte_of (n / 65536), byte_of (n / 256 mod 256), byte_of (n mod 256) with
  | Some a, Some b, Some c => Some [a; b; c]
  | _, _, _ => None
  end.

Definition bytes2 (i0 i1 i2 : Z) : option bytes :=
  let n := (i0 * 64 + i1) * 64 + i2 in
  match byte_of (n / 1024), byte_of (n / 4 mod 256) with
  | Some a, Some b => Some [a; b]
  | _, _ => None
  end.

Definition bytes1 (i0 i1 : Z) : option bytes :=
  let n := i0 * 64 + i1 in
  match byte_of (n / 16) with
  | Some a => Some [a]
  | None => None
  end.

(** Decode groups of four characters up to the first character that is not
    of the alphabet; returns the bytes and the input from that character on. *)
Fixpoint decode_prefix (s : bytes) : option (bytes * bytes) :=
  match s with
  | c0 :: s1 =>
      match sextet_of c0 with
      | None => Some ([], s)
      | Some i0 =>
          match s1 with
          | c1 :: c2 :: c3 :: rest =>
              match sextet_of c1 with
              | None => None
              | Some i1 =>
                  if Byte.eqb c3 pad then
                    if Byte.eqb c2 pad then
                      match bytes1 i0 i1 with
                      | Some out => Some (out, rest)
                      | None => None
                      end
                    else
                      match sextet_of c2 with
                      | Some i2 =>
                          match bytes2 i0 i1 i2 with
                          | Some out => Some (out, rest)
                          | None => None
                          end
                      | None => None
                      end
                  else
                    match sextet_of c2, sextet_of c3 with
                    | Some i2, Some i3 =>
                        match bytes3 i0 i1 i2 i3, decode_prefix rest with
                        | Some out, Some (out', rest') => Some (out ++ out', rest')
                        | _, _ => None
                        end
                    | _, _ => None
                    end
              end
          | _ => None
          end
      end
  | [] => Some ([], [])
  end.

(** The table check behind [sextet_of (char_of i) = Some i]. *)
Definition sextet_ok (i : Z) : bool :=
  match sextet_of (char_of i) with
  | Some j => (i =? j) && negb (Byte.eqb (char_of i) pad)
  | None => false
  end.

(** Decoding stops at [c]. *)
Definition stops (rest : bytes) : Prop :=
  match rest with
  | [] => True
  | c :: _ => sextet_of c = None
  end.

End Base64.

Module TileJson.

Definition lit (s : string) : bytes := list_byte_of_string s.

Definition quote : Byte.byte := Byte.x22.

(** An object key: the quoted field name and the colon. *)
Definition key (name : string) : bytes := quote :: lit name ++ quote :: lit ":".

(** Strip the literal [l] from the front of [s]. *)
Fixpoint expect (l s : bytes) : option bytes :=
  match l with
  | [] => Some s
  | c :: l' =>
      match s with
      | x :: s' => if Byte.eqb c x then expect l' s' else None
      | [] => None
      end
  end.

(** A [[]byte] field: [null] for a nil slice, else the base64 text, quoted. *)
Definition marshal_bytes (b : bytes) : bytes :=
  match b with
  | [] => lit "null"
  | _ => quote :: Base64.encode b ++ [quote]
  end.

Definition parse_bytes (s : bytes) : option (bytes * bytes) :=
  match s with
  | c :: s' =>
      if Byte.eqb c quote then
        match Base64.decode_prefix s' with
        | Some (b, rest) =>
            match expect [quote] rest with
            | Some rest' => Some (b, rest')
            | None => None
            end
        | None => None
        end
      else
        match expect (lit "null") s with
        | Some rest => Some ([], rest)
        | None => None
        end
  | [] => None
  end.

Definition marshal_leaf (l : TileLeaf) : bytes :=
  lit "{" ++ key "Path" ++ marshal_bytes (leaf_Path l)
    ++ lit "," ++ key "Hash" ++ marshal_bytes (leaf_Hash l) ++ lit "}".

Definition parse_leaf (s : bytes) : option (TileLeaf * bytes) :=
  match expect (lit "{" ++ key "Path") s with
  | None => None
  | Some s1 =>
  match parse_bytes s1 with
  | None => None
  | Some (p, s2) =>
  match expect (lit "," ++ key "Hash") s2 with
  | None => None
  | Some s3 =>
  match parse_bytes s3 with
  | None => None
  | Some (h, s4) =>
  match expect (lit "}") s4 with
  | None => None
  | Some s5 => Some ({| leaf_Path := p; leaf_Hash := h |}, s5)
  end end end end end.

(** The elements of an array after the first, each behind a comma. *)
Fixpoint marshal_more (ls : list TileLeaf) : bytes :=
  match ls with
  | [] => []
  | l :: ls' => lit "," ++ marshal_leaf l ++ marshal_more ls'
  end.

(** A [[]*TileLeaf] field: [null] for a nil slice, else the array. *)
Definition marshal_leaves (ls : list TileLeaf) : bytes :=
  match ls with
  | [] => lit "null"
  | l :: ls' => lit "[" ++ marshal_leaf l ++ marshal_more ls' ++ lit "]"
  end.

Fixpoint parse_more (fuel : nat) (s : bytes) : option (list TileLeaf * bytes) :=
  match fuel with
  | O => None
  | S fuel' =>
      match s with
      | c :: s' =>
          if Byte.eqb c Byte.x5d then Some ([], s')
          else if Byte.eqb c Byte.x2c then
            match parse_leaf s' with
            | None => None
            | Some (l, s2) =>
                match parse_more fuel' s2 with
                | None => None
                | Some (ls, s3) => Some (l :: ls, s3)
                end
            end
          else None
      | [] => None
      end
  end.

Definition parse_leaves (s : bytes) : option (list TileLeaf * bytes) :=
  match s with
  | c :: s' =>
      if Byte.eqb c Byte.x5b then
        match expect (lit "]") s' with
        | Some rest => Some ([], rest)
        | None =>
            match parse_leaf s' with
            | None => None
            | Some (l, s2) =>
                match parse_more (List.length s2) s2 with
                | None => None
                | Some (ls, s3) => Some (l :: ls, s3)
                end
            end
        end
      else
        match expect (lit "null") s with
        | Some rest => Some ([], rest)
        | None => None
        end
  | [] => None
  end.

Definition marshal_tile (t : batchmap_Tile) : bytes :=
  lit "{" ++ key "Path" ++ marshal_bytes (tile_Path t)
    ++ lit "," ++ key "RootHash" ++ marshal_bytes (tile_RootHash t)
    ++ lit "," ++ key "Leaves" ++ marshal_leaves (tile_Leaves t) ++ lit "}".

Definition parse_tile (s : bytes) : option batchmap_Tile :=
  match expect (lit "{" ++ key "Path") s with
  | None => None
  | Some s1 =>
  match parse_bytes s1 with
  | None => None
  | Some (p, s2) =>
  match expect (lit "," ++ key "RootHash") s2 with
  | None => None
  | Some s3 =>
  match parse_bytes s3 with
  | None => None
  | Some (h, s4) =>
  match expect (lit "," ++ key "Leaves") s4 with
  | None => None
  | Some s5 =>
  match parse_leaves s5 with
  | None => None
  | Some (ls, s6) =>
  match expect (lit "}") s6 with
  | Some [] => Some {| tile_Path := p; tile_RootHash := h; tile_Leaves := ls |}
  | _ => None
  end end end end end end end.

End TileJson.

(** [json.Marshal] and [json.Unmarshal] at [batchmap.Tile]. *)
Definition go_json : Json batchmap_Tile :=
  {| json_Marshal := fun t => Ok (TileJson.marshal_tile t);
     json_Unmarshal := fun bs =>
       match TileJson.parse_tile bs with
       | Some t => Ok t
       | None => Err (ErrLib "json: cannot unmarshal into Go value of type batchmap.Tile")
       end |}.


(** ** What a graph reads *)

(** The database reads of a graph: driver, data source and statement of every
    [databaseio.Query] in it. *)
Fixpoint queries (c : PCollection) : list (string * string * SqlQuery) :=
  match c with
  | databaseio_Query _ driver dsn q => [(driver, dsn, q)]
  | pipeline_CreateEntries _ r => queries r
  | pipeline_MakeVersionList r => queries r
  | beam_Flatten a b => queries a ++ queries b
  | beam_ParDo _ _ i => queries i
  | batchmap_Update_node t e _ _ _ => queries t ++ queries e
  | batchmap_Create_node e _ _ _ => queries e
  end.

(** How many [pipeline.MakeVersionList] transforms a graph holds. *)
Fixpoint version_lists (c : PCollection) : nat :=
  match c with
  | databaseio_Query _ _ _ _ => 0
  | pipeline_CreateEntries _ r => version_lists r
  | pipeline_MakeVersionList r => S (version_lists r)
  | beam_Flatten a b => version_lists a + version_lists b
  | beam_ParDo _ _ i => version_lists i
  | batchmap_Update_node t e _ _ _ => version_lists t + version_lists e
  | batchmap_Create_node e _ _ _ => version_lists e
  end.

(** A read of the graph is a read of [leafMetadata] over [startID, endID)
    from the mirror, or a read of the tiles of [lastMapRev] from the map
    database. *)
Definition query_of_build (fl : Flags) (startID endID lastMapRev : Z)
    (x : string * string * SqlQuery) : Prop :=
  x = ("sqlite3", sumDBString fl, SelectLeafMetadataRange startID endID)
  \/ (incrementalUpdate fl = true
      /\ x = ("sqlite3", mapDBString fl, SelectTilesAtRevision lastMapRev)).

(** A world that differs from [w] in what the tile database reports as its
    latest revision and in what [batchmap.Update] answers. *)
Definition with_prior (w : World) (latest : result (Z * bytes * Z))
    (update : PCollection -> PCollection -> Z -> Hash -> Z -> option error) : World :=
  {| sql_Open := sql_Open w;
     sumdb_file := sumdb_file w;
     checkpoint_scan_fault := checkpoint_scan_fault w;
     count_scan_fault := count_scan_fault w;
     mapdb_NewTileDB := mapdb_NewTileDB w;
     tiledb_Init := tiledb_Init w;
     tiledb_NextWriteRevision := tiledb_NextWriteRevision w;
     tiledb_LatestRevision := latest;
     batchmap_Create := batchmap_Create w;
     batchmap_Update := update;
     beamx_Run := beamx_Run w;
     tiledb_WriteRevision := tiledb_WriteRevision w |}.

(** A world that differs from [w] in what [batchmap.Create] answers. *)
Definition with_create (w : World)
    (create : PCollection -> Z -> Hash -> Z -> option error) : World :=
  {| sql_Open := sql_Open w;
     sumdb_file := sumdb_file w;
     checkpoint_scan_fault := checkpoint_scan_fault w;
     count_scan_fault := count_scan_fault w;
     mapdb_NewTileDB := mapdb_NewTileDB w;
     tiledb_Init := tiledb_Init w;
     tiledb_NextWriteRevision := tiledb_NextWriteRevision w;
     tiledb_LatestRevision := tiledb_LatestRevision w;
     batchmap_Create := create;
     batchmap_Update := batchmap_Update w;
     beamx_Run := beamx_Run w;
     tiledb_WriteRevision := tiledb_WriteRevision w |}.

(** The graph of the incremental build over [1000, 1500). *)
Definition pipeline_grown : Pipeline :=
  pipeline_of flags_incremental 1
    (tree_node flags_incremental 0
       (entries_of flags_incremental (source_of flags_incremental 1000 1500))).

(** ** Logging *)








(** ** Order of store accesses *)

(** What must have gone well before [main] performs a store access. *)
Definition access_justified (fl : Flags) (w : World) (e : Event) : Prop :=
  match e with
  | EvSqlOpen d =>
      d = sumDBString fl /\ is_empty d = false
      /\ buildVersionList fl && incrementalUpdate fl = false
  | EvNewTileDB d =>
      d = mapDBString fl /\ is_empty d = false
      /\ sql_Open w (sumDBString fl) = None
  | EvTileDBInit => mapdb_NewTileDB w (mapDBString fl) = None
  | EvNextWriteRevision => tiledb_Init w = None
  | EvQueryRow SelectLatestCheckpoint => exists rev, tiledb_NextWriteRevision w = Ok rev
  | EvQueryRow SelectCountLeafMetadata =>
      checkpoint_scan_fault w = None /\ checkpoints (sumdb_file w) <> []
  | EvQueryRow _ => False
  | EvLatestRevision =>
      incrementalUpdate fl = true
      /\ exists rev golden T, Connected fl w rev golden T /\ count fl <= T
  | EvWriteRevision rev _ _ => tiledb_NextWriteRevision w = Ok rev
  | _ => exists rev golden T, Connected fl w rev golden T /\ count fl <= T
  end.

(** ** The Tritter service stubs *)

Module Tritter.

(** [SendRequest]: its one field ([state], [sizeCache] and [unknownFields]
    are bookkeeping of the protobuf runtime). *)
Record SendRequest : Type := { Message : string }.



(** [(x *SendRequest) GetMessage]; [None] is the nil pointer. *)
Definition GetMessage (x : option SendRequest) : string :=
  match x with
  | Some r => Message r
  | None => ""
  end.





















End Tritter.

(** ** The feed-to-github script *)

Module FeedToGithub.

(** What the script reads from its environment: the variables it expands
    (empty when unset), whether [type tool] succeeds, and what the commands
    it substitutes print. *)
Record Env : Type := {
  GIT_USERNAME : string;
  GIT_EMAIL : string;
  FEEDER_GITHUB_TOKEN : string;
  SCRIPT_DIR : string;
  var_size : string;                      (* ${size}, never assigned by the script *)
  on_PATH : string -> bool;               (* type ${i} &> /dev/null *)
  git_config_user_name : string;          (* $(git config user.name) *)
  git_config_user_email : string;         (* $(git config user.email) *)
  mktemp_d : string;                      (* $(mktemp -d) *)
  readlink_f : string -> string           (* $(readlink -f -n ${4}) *)
}.

(** What the script does, in order: lines it prints, the usage text, the
    commands it runs (with the standard input piped to them, if any), and its
    changes of directory, traps and sleeps. *)
Inductive Action : Type :=
| Echo (line : string)
| Usage
| Run (argv : list string)
| RunWithInput (input : string) (argv : list string)
| Cd (dir : string)
| Trap (command : string)
| Sleep (seconds : string).

(** How a piece of the script ends: by [exit code], or by going on. *)
Inductive Status : Type := Exit (code : Z) | Next.

Definition Sh : Type := (list Action * Status)%type.


(** Sequencing: what follows runs only if the script did not exit. *)
Definition andthen (a : Sh) (b : Sh) : Sh :=
  match a with
  | (xs, Next) => (xs ++ fst b, snd b)
  | (xs, Exit c) => (xs, Exit c)
  end.

Definition do (xs : list Action) : Sh := (xs, Next).

(** [usage]. *)
Definition usage : Sh := ([Usage], Exit 1).

(** [check_exist]: [missing] collects the tools that are not found; the test
    [[[ ! -z ${missing} ]]] looks at its first element. *)
Definition check_exist (env : Env) (tools : list string) : Sh :=
  let missing := filter (fun i => negb (on_PATH env i)) tools in
  match missing with
  | first :: _ =>
      if is_empty first then do []
      else ([Echo "Please install the following tool(s) in a location on the PATH:";
             Echo (String.concat " " missing)], Exit 1)
  | [] => do []
  end.

(** [check_git]. *)
Definition check_git (env : Env) : Sh :=
  let no_name := is_empty (git_config_user_name env) && is_empty (GIT_USERNAME env) in
  let no_email := is_empty (git_config_user_email env) && is_empty (GIT_EMAIL env) in
  ((if no_name then
      [Echo "Please set GIT_USERNAME environment variable - this is used for the witness PR commit"]
    else [])
   ++
   (if no_email then
      [Echo "Please set GIT_EMAIL environment variable - this is used for the witness PR commit"]
    else []),
   if no_name || no_email then Exit 1 else Next).

(** [sleep_or_exit]. *)
Definition sleep_or_exit (arg : string) : Sh :=
  if is_empty arg then ([], Exit 0)
  else ([Echo ("Sleeping " ++ arg)%string; Sleep arg], Next).

(** [$(echo ${fork_repo} | cut -f1 -d/)]: the text before the first slash. *)
Fixpoint cut_f1 (s : string) : string :=
  match s with
  | EmptyString => EmptyString
  | String c rest => if Ascii.eqb c "/"%char then EmptyString else String c (cut_f1 rest)
  end.

(** The positional parameter [${n}] of [main], empty when not given. *)
Definition arg (args : list string) (n : nat) : string := nth (n - 1) args "".

(** What one turn of the loop observes: whether the test
    of [added] against 0 holds, and lines 2 and 3 of the witnessed
    checkpoint. *)
Record Observed : Type := {
  added_is_zero : bool;
  cp_size : string;
  cp_hash : string
}.

(** The body of [while true] in [main]. *)
Definition cycle (env : Env) (args : list string) (o : Observed) : Sh :=
  let log_repo := arg args 1 in
  let fork_owner := cut_f1 (arg args 2) in
  let log_path := arg args 3 in
  let feeder_conf := readlink_f env (arg args 4) in
  let interval := arg args 5 in
  let temp := mktemp_d env in
  andthen
    (do [Run ["git"; "pull"];
         Cd (SCRIPT_DIR env);
         Run ["feeder"; ("--config_file=" ++ feeder_conf)%string; "--logtostderr";
              ("--input=https://raw.githubusercontent.com/" ++ log_repo ++ "/master/"
                 ++ log_path ++ "/checkpoint")%string;
              ("--output=" ++ temp ++ "/" ++ log_path ++ "/checkpoint.witnessed")%string;
              "-v"; "2"];
         Cd temp;
         Run ["git"; "diff"; "--numstat"]])
    (if added_is_zero o then
       andthen (do [Echo "No signatures added"]) (sleep_or_exit interval)
     else
       let branch := ("witness_" ++ cp_hash o)%string in
       andthen
         (do [Run ["git"; "stash"];
              Run ["git"; "checkout"; "-b"; branch];
              Run ["git"; "stash"; "pop"];
              Run ["git"; "commit"; "-a"; "-m"; ("Witness checkpoint@" ++ var_size env)%string];
              Run ["git"; "push"; "-f"; "origin"; branch];
              Run ["gh"; "pr"; "create"; "-R"; log_repo;
                   ("--title=Witness @ " ++ cp_size o)%string; "-f";
                   ("--head=" ++ fork_owner ++ ":" ++ branch)%string];
              Run ["git"; "checkout"; "master"];
              Run ["git"; "branch"; "-D"; branch];
              Echo "[Feed cycle complete]------------------------------------------------"])
         (sleep_or_exit interval)).

(** [while true; do ... done] over the turns observed so far; it ends with
    [Next] when the loop is still running after them. *)
Fixpoint loop (env : Env) (args : list string) (obs : list Observed) : Sh :=
  match obs with
  | [] => do []
  | o :: rest => andthen (cycle env args o) (loop env args rest)
  end.

(** [main], on its positional parameters. *)
Definition main (env : Env) (args : list string) (obs : list Observed) : Sh :=
  andthen (if (List.length args <? 4)%nat then usage else do [])
  (andthen (check_exist env ["git"; "gh"])
  (andthen (if on_PATH env "feeder" then do []
            else ([Echo "Please run: ";
                   Echo (" go build " ++ SCRIPT_DIR env)%string;
                   Echo "and ensure the feeder binary is on the PATH"], Exit 1))
  (andthen (check_git env)
  (andthen (if is_empty (FEEDER_GITHUB_TOKEN env) then do []
            else do [RunWithInput (FEEDER_GITHUB_TOKEN env)
                       ["gh"; "auth"; "login"; "--with-token"]])
  (let log_repo := arg args 1 in
   let fork_repo := arg args 2 in
   let temp := mktemp_d env in
   andthen
     (do [Run ["mktemp"; "-d"];
          Trap ("rm -fr " ++ temp)%string;
          Run ["git"; "clone"; "-o"; "origin";
               ("https://" ++ GIT_USERNAME env ++ ":" ++ FEEDER_GITHUB_TOKEN env
                  ++ "@github.com/" ++ fork_repo ++ ".git")%string;
               temp];
          Cd temp;
          Run ["git"; "config"; "user.name"; GIT_USERNAME env];
          Run ["git"; "config"; "user.email"; GIT_EMAIL env];
          Run ["git"; "remote"; "add"; "upstream";
               ("https://github.com/" ++ log_repo ++ ".git")%string];
          Run ["git"; "fetch"; "--all"];
          Run ["git"; "branch"; "-u"; "upstream/master"];
          Echo "[Starting feeding]---------------------------------------------------"])
     (loop env args obs)))))).





End FeedToGithub.

(** ** The Tritter file descriptor *)

Module TritterDescriptor.

















End TritterDescriptor.

(** * Proofs *)

(** ** Basic facts *)

Lemma bind_ret_l {A B} (a : A) (k : A -> Proc B) : bind (ret a) k = k a.
Proof. unfold bind, ret. destruct (k a); reflexivity. Qed.

Lemma bind_Exitf {A B} f args (k : A -> Proc B) : bind (Exitf f args) k = Exitf f args.
Proof. reflexivity. Qed.

Lemma latest_row_In rows r : latest_row rows = Some r -> In r rows.
Proof.
  revert r. induction rows as [|a rows IH]; simpl; intros r H; [discriminate|].
  destruct (latest_row rows) as [r'|] eqn:E.
  - destruct (fst a <? fst r'); injection H as <-; auto.
  - injection H as <-; auto.
Qed.

Lemma latest_row_max rows r :
  latest_row rows = Some r -> forall r', In r' rows -> fst r' <= fst r.
Proof.
  revert r. induction rows as [|a rows IH]; simpl; intros r H r' Hin; [contradiction|].
  destruct (latest_row rows) as [m|] eqn:E.
  - specialize (IH m eq_refl).
    destruct (Z.ltb_spec (fst a) (fst m)); injection H as <-.
    + destruct Hin as [<-|Hin]; [lia | auto].
    + destruct Hin as [<-|Hin]; [lia | specialize (IH _ Hin); lia].
  - injection H as <-. destruct Hin as [<-|Hin]; [lia|].
    destruct rows; [contradiction|]. simpl in E.
    destruct (latest_row rows); [destruct (_ <? _)|]; discriminate.
Qed.

Lemma latest_row_None rows : latest_row rows = None <-> rows = [].
Proof.
  split; [|intros ->; reflexivity].
  destruct rows as [|a rows]; [reflexivity|]. simpl.
  destruct (latest_row rows); [destruct (_ <? _)|]; discriminate.
Qed.

(** ** Connecting to the stores *)

(** What the run does up to line 81 when the stores answer. *)
Lemma newSumDBMirrorFromFlags_Connected fl w rev golden T :
  Connected fl w rev golden T ->
  newSumDBMirrorFromFlags fl w =
    ([EvSqlOpen (sumDBString fl)],
     Done (Ok {| dbString := sumDBString fl; db := sumdb_file w |})).
Proof.
  intros C. unfold newSumDBMirrorFromFlags.
  rewrite (conn_sum_db _ _ _ _ _ C), (conn_sql_open _ _ _ _ _ C). reflexivity.
Qed.

Lemma sinkFromFlags_Connected fl w rev golden T :
  Connected fl w rev golden T ->
  sinkFromFlags fl w =
    ([EvNewTileDB (mapDBString fl); EvTileDBInit; EvNextWriteRevision],
     Done (Ok ({| tiledb_path := mapDBString fl |}, rev))).
Proof.
  intros C. unfold sinkFromFlags.
  rewrite (conn_map_db _ _ _ _ _ C), (conn_new_tiledb _ _ _ _ _ C). cbn.
  rewrite (conn_init _ _ _ _ _ C). cbn.
  rewrite (conn_rev _ _ _ _ _ C). reflexivity.
Qed.

Lemma getEntryMetadata_Connected fl w rev golden T :
  Connected fl w rev golden T ->
  getEntryMetadata w {| dbString := sumDBString fl; db := sumdb_file w |} =
    ([EvQueryRow SelectLatestCheckpoint; EvQueryRow SelectCountLeafMetadata],
     Done (Ok (golden, T))).
Proof.
  intros C. unfold getEntryMetadata, scan_checkpoint, scan_count. cbn.
  rewrite (conn_cp_fault _ _ _ _ _ C), (conn_count_fault _ _ _ _ _ C).
  destruct (conn_cp _ _ _ _ _ C) as [dt ->]. cbn.
  rewrite (conn_count _ _ _ _ _ C). reflexivity.
Qed.

Lemma getEntryMetadata_nonneg w m t golden T :
  getEntryMetadata w m = (t, Done (Ok (golden, T))) -> 0 <= T.
Proof.
  unfold getEntryMetadata, scan_count.
  destruct (scan_checkpoint w m); cbn; [|discriminate].
  destruct (count_scan_fault w); cbn; [discriminate|].
  intros H. injection H as _ _ <-. lia.
Qed.

Lemma Connected_nonneg fl w rev golden T : Connected fl w rev golden T -> 0 <= T.
Proof. intros C. rewrite (conn_count _ _ _ _ _ C). lia. Qed.

Lemma quiet_Connected fl cps n next latest dt golden :
  buildVersionList fl && incrementalUpdate fl = false ->
  is_empty (sumDBString fl) = false ->
  is_empty (mapDBString fl) = false ->
  latest_row cps = Some (dt, golden) ->
  Connected fl (quiet_world (mirror cps n) next latest) next golden (Z.of_nat n).
Proof.
  intros H1 H2 H3 H4. constructor; cbn; try reflexivity; try assumption.
  - exists dt. assumption.
  - rewrite length_map, length_seq. reflexivity.
Defined.

(** ** The shape of a run of [main] past line 81 *)

Section PastConnect.
Variables (fl : Flags) (w : World) (rev : Z) (golden : bytes) (T : Z).
Hypothesis C : Connected fl w rev golden T.

Let mapDB : TileDB := {| tiledb_path := mapDBString fl |}.

Ltac enter_main :=
  rewrite (conn_flags _ _ _ _ _ C);
  rewrite (newSumDBMirrorFromFlags_Connected _ _ _ _ _ C); cbv beta iota delta [bind];
  rewrite (sinkFromFlags_Connected _ _ _ _ _ C); cbv beta iota;
  rewrite (getEntryMetadata_Connected _ _ _ _ _ C); cbv beta iota;
  fold mapDB.

Lemma main_range_exit t m :
  resolveRange fl w mapDB T = (t, Exited m) ->
  main fl w = (connect_trace fl ++ t, Exited m).
Proof.
  intros R. unfold main.
  enter_main. rewrite R. reflexivity.
Qed.

Lemma main_tree_exit t s e l t' m :
  resolveRange fl w mapDB T = (t, Done (s, e, l)) ->
  buildTiles fl w l (entries_of fl (source_of fl s e)) = (t', Exited m) ->
  main fl w = (connect_trace fl ++ t ++ [EvBeamInit; EvNewPipeline] ++ t', Exited m).
Proof.
  intros R B. unfold main.
  enter_main. rewrite R.
  unfold entries_of, source_of in B. unfold beamSource. cbn.
  destruct (buildVersionList fl); rewrite B; cbn; rewrite <- ?app_assoc; reflexivity.
Qed.

Lemma main_run t s e l t' allTiles :
  resolveRange fl w mapDB T = (t, Done (s, e, l)) ->
  buildTiles fl w l (entries_of fl (source_of fl s e)) = (t', Done allTiles) ->
  main fl w =
    (connect_trace fl ++ t ++ [EvBeamInit; EvNewPipeline] ++ t'
       ++ EvRun (pipeline_of fl rev allTiles)
       :: match beamx_Run w (pipeline_of fl rev allTiles) with
          | Some _ => []
          | None => [EvWriteRevision rev golden e]
          end,
     match beamx_Run w (pipeline_of fl rev allTiles) with
     | Some err => Exited (Exitf_msg "Failed to execute job: %q" [AErr err])
     | None =>
         match tiledb_WriteRevision w rev golden e with
         | Some err =>
             Exited (Exitf_msg "Failed to finalize map revison %d: %v" [AInt rev; AErr err])
         | None => Done tt
         end
     end).
Proof.
  intros R B. unfold main.
  enter_main. rewrite R.
  unfold entries_of, source_of in B. unfold beamSource. cbn.
  unfold pipeline_of.
  destruct (buildVersionList fl); rewrite B; cbn;
    destruct (beamx_Run w _); cbn;
    try destruct (tiledb_WriteRevision w rev golden e); cbn;
    rewrite <- ?app_assoc; reflexivity.
Qed.
End PastConnect.

(** ** Range resolution and the tree transform *)

Lemma endID_of_bounded fl T : 0 <= count fl -> endID_of fl T = count fl.
Proof. unfold endID_of. destruct (Z.ltb_spec (count fl) 0); [lia | reflexivity]. Qed.

Lemma endID_of_unbounded fl T : count fl < 0 -> endID_of fl T = T.
Proof. unfold endID_of. destruct (Z.ltb_spec (count fl) 0); [reflexivity | lia]. Qed.

Lemma resolveRange_insufficient fl w mapDB T :
  T < count fl ->
  resolveRange fl w mapDB T = ([], Exited (RangeError_insufficient (count fl) T)).
Proof.
  intros H. unfold resolveRange.
  destruct (Z.ltb_spec T (count fl)); [reflexivity | lia].
Qed.

Lemma resolveRange_full fl w mapDB T :
  incrementalUpdate fl = false -> count fl <= T ->
  resolveRange fl w mapDB T = ([], Done (0, endID_of fl T, 0)).
Proof.
  intros Hfull H. unfold resolveRange, endID_of. rewrite Hfull.
  destruct (Z.ltb_spec T (count fl)); [lia | reflexivity].
Qed.

Lemma resolveRange_incremental fl w mapDB T :
  incrementalUpdate fl = true -> count fl <= T ->
  resolveRange fl w mapDB T =
    ([EvLatestRevision],
     match tiledb_LatestRevision w with
     | Err err => Exited (RangeError_no_revision err)
     | Ok (lastMapRev, _, startID) =>
         if startID >=? endID_of fl T
         then Exited (RangeError_not_advancing startID (endID_of fl T))
         else Done (startID, endID_of fl T, lastMapRev)
     end).
Proof.
  intros Hinc H. unfold resolveRange, endID_of, LatestRevision. rewrite Hinc.
  destruct (Z.ltb_spec T (count fl)); [lia|].
  destruct (tiledb_LatestRevision w) as [[[l cp] s]|err]; cbn; [|reflexivity].
  destruct (s >=? _); reflexivity.
Qed.

Lemma resolveRange_with_count fl w mapDB T c1 c2 :
  0 <= T -> c1 < 0 -> c2 < 0 ->
  resolveRange (with_count fl c1) w mapDB T = resolveRange (with_count fl c2) w mapDB T.
Proof.
  intros HT H1 H2. unfold resolveRange. cbn [with_count count incrementalUpdate].
  destruct (Z.ltb_spec T c1); [lia|]. destruct (Z.ltb_spec T c2); [lia|].
  destruct (Z.ltb_spec c1 0); [|lia]. destruct (Z.ltb_spec c2 0); [|lia].
  reflexivity.
Qed.

Lemma buildTiles_full fl w l entries :
  incrementalUpdate fl = false ->
  buildTiles fl w l entries =
    ([EvBatchmapCreate entries (treeID fl) hash (prefixStrata fl)],
     match batchmap_Create w entries (treeID fl) hash (prefixStrata fl) with
     | Some err => Exited (Exitf_msg "Failed to create pipeline: %q" [AErr err])
     | None => Done (batchmap_Create_node entries (treeID fl) hash (prefixStrata fl))
     end).
Proof.
  intros Hfull. unfold buildTiles, Create. rewrite Hfull.
  destruct (batchmap_Create w _ _ _ _); reflexivity.
Qed.

Lemma buildTiles_incremental fl w l entries :
  incrementalUpdate fl = true ->
  buildTiles fl w l entries =
    ([EvBatchmapUpdate (priorTiles fl l) entries (treeID fl) hash (prefixStrata fl)],
     match batchmap_Update w (priorTiles fl l) entries (treeID fl) hash (prefixStrata fl) with
     | Some err => Exited (Exitf_msg "Failed to create pipeline: %q" [AErr err])
     | None =>
         Done (batchmap_Update_node (priorTiles fl l) entries (treeID fl) hash (prefixStrata fl))
     end).
Proof.
  intros Hinc. unfold buildTiles, Update, priorTiles. rewrite Hinc.
  destruct (batchmap_Update w _ _ _ _ _); reflexivity.
Qed.

Lemma buildTiles_shape fl w l entries :
  buildTiles fl w l entries =
    ([tree_call fl l entries],
     match tree_error fl w l entries with
     | Some err => Exited (Exitf_msg "Failed to create pipeline: %q" [AErr err])
     | None => Done (tree_node fl l entries)
     end).
Proof.
  unfold tree_call, tree_error, tree_node.
  destruct (incrementalUpdate fl) eqn:E.
  - apply buildTiles_incremental, E.
  - apply buildTiles_full, E.
Qed.

(** ** Every run of [main] *)

(** Every run either ends before line 81, having performed an initial part
    of [connect_trace], or reaches line 81 with the stores connected. *)
Lemma main_connect_cases fl w :
  (exists t t' m, main fl w = (t, Exited m) /\ connect_trace fl = t ++ t'
                  /\ In (fatal_format m) connect_formats
                  /\ forall rev golden T, ~ Connected fl w rev golden T)
  \/ (exists rev golden T, Connected fl w rev golden T).
Proof.
  assert (early : forall t t' m,
             main fl w = (t, Exited m) -> connect_trace fl = t ++ t' ->
             In (fatal_format m) connect_formats ->
             (forall rev golden T, ~ Connected fl w rev golden T) ->
             exists t t' m, main fl w = (t, Exited m) /\ connect_trace fl = t ++ t'
                            /\ In (fatal_format m) connect_formats
                            /\ forall rev golden T, ~ Connected fl w rev golden T).
  { intros t t' m H1 H2 H3 H4. exists t, t', m. auto. }
  unfold main, connect_trace in *.
  destruct (buildVersionList fl && incrementalUpdate fl) eqn:Hflags.
  { left. eapply (early []); [reflexivity | reflexivity | cbn; tauto |].
    intros ? ? ? [ ]; congruence. }
  unfold newSumDBMirrorFromFlags in *.
  destruct (is_empty (sumDBString fl)) eqn:Hsum.
  { left. eapply (early []); [reflexivity | reflexivity | cbn; tauto |].
    intros ? ? ? [ ]; congruence. }
  destruct (sql_Open w (sumDBString fl)) eqn:Hopen.
  { left. eapply early; [reflexivity | cbn; reflexivity | cbn; tauto |].
    intros ? ? ? [ ]; congruence. }
  unfold sinkFromFlags in *.
  destruct (is_empty (mapDBString fl)) eqn:Hmap.
  { left. eapply early; [reflexivity | cbn; reflexivity | cbn; tauto |].
    intros ? ? ? [ ]; congruence. }
  destruct (mapdb_NewTileDB w (mapDBString fl)) eqn:Hnew.
  { left. eapply early; [reflexivity | cbn; reflexivity | cbn; tauto |].
    intros ? ? ? [ ]; congruence. }
  destruct (tiledb_Init w) eqn:Hinit.
  { left. eapply early; [reflexivity | cbn; reflexivity | cbn; tauto |].
    intros ? ? ? [ ]; congruence. }
  destruct (tiledb_NextWriteRevision w) as [rev|err] eqn:Hrev.
  2:{ left. eapply early; [reflexivity | cbn; reflexivity | cbn; tauto |].
      intros ? ? ? [ ]; congruence. }
  unfold getEntryMetadata, scan_checkpoint, scan_count in *.
  cbn -[resolveRange buildTiles Run WriteRevision latest_row] in *.
  destruct (checkpoint_scan_fault w) eqn:Hcpf.
  { left. eapply early; [reflexivity | cbn; reflexivity | cbn; tauto |].
    intros ? ? ? [ ]; congruence. }
  destruct (latest_row (checkpoints (sumdb_file w))) as [[dt golden]|] eqn:Hcp.
  2:{ left. eapply early; [reflexivity | cbn; reflexivity | cbn; tauto |].
      intros ? ? ? [? ? ? ? ? ? ? ? [? ?] ? ?]; congruence. }
  destruct (count_scan_fault w) eqn:Hcf.
  { left. eapply early; [reflexivity | cbn; reflexivity | cbn; tauto |].
    intros ? ? ? [ ]; congruence. }
  right. exists rev, golden, (Z.of_nat (List.length (leafMetadata (sumdb_file w)))).
  constructor; try assumption; try reflexivity. exists dt. exact Hcp.
Qed.

Lemma main_resolved fl w rev golden T s l t :
  Connected fl w rev golden T ->
  resolveRange fl w {| tiledb_path := mapDBString fl |} T = (t, Done (s, endID_of fl T, l)) ->
  t = range_trace fl ->
  resolved fl w T s l ->
  RunShape fl w (main fl w).
Proof.
  intros C R -> Hres.
  pose proof (buildTiles_shape fl w l (entries_of fl (source_of fl s (endID_of fl T)))) as B.
  destruct (tree_error fl w l _) as [err|] eqn:HT.
  - rewrite (main_tree_exit _ _ _ _ _ C _ _ _ _ _ _ R B).
    eapply RunTreeError; eassumption.
  - rewrite (main_run _ _ _ _ _ C _ _ _ _ _ _ R B).
    destruct (beamx_Run w _) as [err|] eqn:HR.
    + eapply RunEngineError; eassumption.
    + eapply RunCommit; eassumption.
Qed.

(** [main] has no other runs. *)
Theorem main_shape fl w : RunShape fl w (main fl w).
Proof.
  destruct (main_connect_cases fl w)
    as [(t & t' & m & -> & Hpre & Hfmt & Hnot) | (rev & golden & T & C)].
  { apply (RunEarly fl w t t' m Hpre Hfmt Hnot). }
  set (mapDB := {| tiledb_path := mapDBString fl |}).
  destruct (Z.lt_ge_cases T (count fl)) as [Hlt | Hle].
  { rewrite (main_range_exit _ _ _ _ _ C _ _ (resolveRange_insufficient fl w mapDB T Hlt)).
    rewrite app_nil_r. eapply RunInsufficient; eassumption. }
  destruct (incrementalUpdate fl) eqn:Hmode.
  - pose proof (resolveRange_incremental fl w mapDB T Hmode Hle) as R.
    destruct (tiledb_LatestRevision w) as [[[l cp] s]|err] eqn:HL.
    + destruct (Z.geb_spec s (endID_of fl T)) as [Hge | Hlt].
      * rewrite (main_range_exit _ _ _ _ _ C _ _ R).
        eapply RunNotAdvancing; eassumption.
      * apply (main_resolved fl w rev golden T s l _ C R).
        -- unfold range_trace. rewrite Hmode. reflexivity.
        -- split; [exact Hle|]. rewrite Hmode. exists cp. split; [exact HL | exact Hlt].
    + rewrite (main_range_exit _ _ _ _ _ C _ _ R). eapply RunNoRevision; eassumption.
  - apply (main_resolved fl w rev golden T 0 0 _ C (resolveRange_full fl w mapDB T Hmode Hle)).
    + unfold range_trace. rewrite Hmode. reflexivity.
    + split; [exact Hle|]. rewrite Hmode. split; reflexivity.
Qed.

Lemma main_with_count fl w c1 c2 :
  c1 < 0 -> c2 < 0 -> main (with_count fl c1) w = main (with_count fl c2) w.
Proof.
  intros H1 H2. unfold main.
  change (buildVersionList (with_count fl c1)) with (buildVersionList fl).
  change (buildVersionList (with_count fl c2)) with (buildVersionList fl).
  change (incrementalUpdate (with_count fl c1)) with (incrementalUpdate fl).
  change (incrementalUpdate (with_count fl c2)) with (incrementalUpdate fl).
  destruct (buildVersionList fl && incrementalUpdate fl); [reflexivity|].
  change (newSumDBMirrorFromFlags (with_count fl c1) w) with (newSumDBMirrorFromFlags fl w).
  change (newSumDBMirrorFromFlags (with_count fl c2) w) with (newSumDBMirrorFromFlags fl w).
  destruct (newSumDBMirrorFromFlags fl w) as [t1 [[sumDB|err]|m]]; try reflexivity.
  cbv beta iota delta [bind].
  change (sinkFromFlags (with_count fl c1) w) with (sinkFromFlags fl w).
  change (sinkFromFlags (with_count fl c2) w) with (sinkFromFlags fl w).
  destruct (sinkFromFlags fl w) as [t2 [[[mapDB rev]|err]|m]]; try reflexivity.
  cbv beta iota.
  destruct (getEntryMetadata w sumDB) as [t3 [[[golden T]|err]|m]] eqn:E; try reflexivity.
  cbv beta iota.
  rewrite (resolveRange_with_count fl w mapDB T c1 c2
             (getEntryMetadata_nonneg _ _ _ _ _ E) H1 H2).
  reflexivity.
Qed.

(** ** Events of a run *)

Lemma In_connect_prefix fl t t' e :
  connect_trace fl = t ++ t' -> In e t -> In e (connect_trace fl).
Proof. intros -> H. apply in_or_app. left. exact H. Qed.

Lemma connect_trace_no_pipeline fl e :
  In e (connect_trace fl) -> is_pipeline_event e = false /\ is_WriteRevision e = false.
Proof. cbn. intuition (subst; reflexivity). Qed.

Lemma connect_prefix_forallb fl t t' (f : Event -> bool) :
  connect_trace fl = t ++ t' -> forallb f (connect_trace fl) = true -> forallb f t = true.
Proof.
  intros -> H. rewrite forallb_app in H. apply andb_true_iff in H. tauto.
Qed.

Lemma connect_prefix_filter fl t t' (f : Event -> bool) :
  connect_trace fl = t ++ t' -> filter f (connect_trace fl) = [] -> filter f t = [].
Proof.
  intros -> H. rewrite filter_app in H. apply app_eq_nil in H. tauto.
Qed.

Lemma range_trace_events fl e : In e (range_trace fl) -> e = EvLatestRevision.
Proof.
  unfold range_trace. destruct (incrementalUpdate fl); cbn; intuition.
Qed.

Lemma tree_call_not_commit fl l entries rev cp n :
  tree_call fl l entries <> EvWriteRevision rev cp n.
Proof. unfold tree_call. destruct (incrementalUpdate fl); discriminate. Qed.

Lemma tree_call_not_run fl l entries p : tree_call fl l entries <> EvRun p.
Proof. unfold tree_call. destruct (incrementalUpdate fl); discriminate. Qed.

(** Decompose membership in the traces of [RunShape]. *)
Ltac in_trace H :=
  repeat (apply in_app_or in H; destruct H as [H|H]);
  try (apply connect_trace_no_pipeline in H; destruct H; discriminate);
  try (apply range_trace_events in H; discriminate);
  try (cbn in H;
       repeat (destruct H as [H|H];
               [try discriminate; try (apply tree_call_not_commit in H; contradiction);
                try (apply tree_call_not_run in H; contradiction)|]);
       try contradiction).

Lemma preceded_by_spec p q t :
  preceded_by p q t = true ->
  forall pre e post, t = pre ++ e :: post -> q e = true ->
  exists x, In x pre /\ p x = true.
Proof.
  induction t as [|a t IH]; intros H pre e post E Hq.
  - destruct pre; discriminate.
  - cbn in H. apply andb_true_iff in H. destruct H as [Hqa H].
    destruct pre as [|b pre]; cbn in E; injection E as <- ->.
    + rewrite Hq in Hqa. discriminate.
    + destruct (p a) eqn:Hp.
      * exists a. split; [left; reflexivity | exact Hp].
      * cbn in H. destruct (IH H pre e post eq_refl Hq) as (x & Hin & Hx).
        exists x. split; [right; exact Hin | exact Hx].
Qed.

Lemma preceded_by_prefix p q t t' :
  preceded_by p q (t ++ t') = true -> preceded_by p q t = true.
Proof.
  induction t as [|a t IH]; cbn; [reflexivity|].
  intros H. apply andb_true_iff in H. destruct H as [-> H]. cbn.
  destruct (p a); [reflexivity|]. cbn in *. auto.
Qed.

Lemma main_alloc_first fl w :
  preceded_by is_alloc is_range_event (trace (main fl w)) = true.
Proof.
  destruct (main_shape fl w) as
    [ t t' m Hpre Hfmt Hnot | rev golden T C Hlt | rev golden T err C Hle Hmode HL
    | rev golden T l cp s C Hle Hmode HL Hge
    | rev golden T s l err C Hres entries HT
    | rev golden T s l err C Hres entries p HT HR
    | rev golden T s l C Hres entries p HT HR ];
    unfold trace; cbn [fst]; try reflexivity.
  apply (preceded_by_prefix _ _ t t'). rewrite <- Hpre. reflexivity.
Qed.


(** ** The JSON text of a tile *)

Module Base64Facts.
Import Base64.

Lemma val_range b : 0 <= val b < 256.
Proof. unfold val. pose proof (Byte.to_N_bounded b). lia. Qed.

Lemma byte_of_val b : byte_of (val b) = Some b.
Proof. unfold byte_of, val. rewrite N2Z.id. apply Byte.of_to_N. Qed.

Lemma sextet_table : forallb sextet_ok (map Z.of_nat (seq 0 64)) = true.
Proof. vm_compute. reflexivity. Qed.

Lemma sextet_of_char_of i :
  0 <= i < 64 -> sextet_of (char_of i) = Some i /\ Byte.eqb (char_of i) pad = false.
Proof.
  intros Hi. pose proof sextet_table as H. rewrite forallb_forall in H.
  specialize (H i). unfold sextet_ok in H.
  assert (Hin : In i (map Z.of_nat (seq 0 64))).
  { apply in_map_iff. exists (Z.to_nat i). split; [lia|]. apply in_seq. lia. }
  specialize (H Hin). destruct (sextet_of (char_of i)) as [j|]; [|discriminate].
  apply andb_true_iff in H. destruct H as [H1 H2].
  apply Z.eqb_eq in H1. subst j. split; [reflexivity|].
  destruct (Byte.eqb (char_of i) pad); [discriminate | reflexivity].
Qed.

Lemma bytes3_encode a b c :
  let n := (val a * 256 + val b) * 256 + val c in
  bytes3 (n / 262144) (n / 4096 mod 64) (n / 64 mod 64) (n mod 64) = Some [a; b; c].
Proof.
  intros n. unfold bytes3.
  pose proof (val_range a). pose proof (val_range b). pose proof (val_range c).
  assert (E : ((n / 262144 * 64 + n / 4096 mod 64) * 64 + n / 64 mod 64) * 64 + n mod 64 = n).
  { Z.div_mod_to_equations. lia. }
  rewrite E.
  assert (Ea : n / 65536 = val a) by (subst n; Z.div_mod_to_equations; lia).
  assert (Eb : n / 256 mod 256 = val b) by (subst n; Z.div_mod_to_equations; lia).
  assert (Ec : n mod 256 = val c) by (subst n; Z.div_mod_to_equations; lia).
  rewrite Ea, Eb, Ec, !byte_of_val. reflexivity.
Qed.

Lemma bytes2_encode a b :
  let n := (val a * 256 + val b) * 4 in
  bytes2 (n / 4096) (n / 64 mod 64) (n mod 64) = Some [a; b].
Proof.
  intros n. unfold bytes2.
  pose proof (val_range a). pose proof (val_range b).
  assert (E : (n / 4096 * 64 + n / 64 mod 64) * 64 + n mod 64 = n).
  { Z.div_mod_to_equations. lia. }
  rewrite E.
  assert (Ea : n / 1024 = val a) by (subst n; Z.div_mod_to_equations; lia).
  assert (Eb : n / 4 mod 256 = val b) by (subst n; Z.div_mod_to_equations; lia).
  rewrite Ea, Eb, !byte_of_val. reflexivity.
Qed.

Lemma bytes1_encode a :
  let n := val a * 16 in
  bytes1 (n / 64) (n mod 64) = Some [a].
Proof.
  intros n. unfold bytes1.
  pose proof (val_range a).
  assert (E : n / 64 * 64 + n mod 64 = n) by (Z.div_mod_to_equations; lia).
  rewrite E.
  assert (Ea : n / 16 = val a) by (subst n; Z.div_mod_to_equations; lia).
  rewrite Ea, byte_of_val. reflexivity.
Qed.

Lemma pad_eqb : Byte.eqb pad pad = true.
Proof. reflexivity. Qed.

(** Induction over a byte string three bytes at a time. *)
Lemma triples_ind (P : bytes -> Prop) :
  P [] -> (forall a, P [a]) -> (forall a b, P [a; b]) ->
  (forall a b c l, P l -> P (a :: b :: c :: l)) ->
  forall l, P l.
Proof.
  intros H0 H1 H2 H3.
  fix IH 1. intros [|a [|b [|c l]]];
    [exact H0 | exact (H1 a) | exact (H2 a b) | exact (H3 a b c l (IH l))].
Qed.

Ltac sextet i :=
  let H := fresh in
  let H1 := fresh in
  let H2 := fresh in
  assert (H : 0 <= i < 64) by (Z.div_mod_to_equations; lia);
  destruct (sextet_of_char_of i H) as [H1 H2];
  rewrite ?H1, ?H2; clear H.

Theorem decode_encode src rest :
  stops rest -> decode_prefix (encode src ++ rest) = Some (src, rest).
Proof.
  intros Hrest. induction src as [|a|a b|a b c l IH] using triples_ind.
  - cbn [encode app]. destruct rest as [|c rest]; [reflexivity|].
    unfold stops in Hrest. cbn [decode_prefix]. rewrite Hrest. reflexivity.
  - cbn [encode app decode_prefix]. pose proof (val_range a).
    sextet (val a * 16 / 64). sextet ((val a * 16) mod 64).
    rewrite pad_eqb. rewrite bytes1_encode. reflexivity.
  - cbn [encode app decode_prefix]. pose proof (val_range a). pose proof (val_range b).
    sextet ((val a * 256 + val b) * 4 / 4096).
    sextet ((val a * 256 + val b) * 4 / 64 mod 64).
    sextet (((val a * 256 + val b) * 4) mod 64).
    rewrite pad_eqb. rewrite bytes2_encode. reflexivity.
  - cbn [encode app decode_prefix].
    pose proof (val_range a). pose proof (val_range b). pose proof (val_range c).
    sextet (((val a * 256 + val b) * 256 + val c) / 262144).
    sextet (((val a * 256 + val b) * 256 + val c) / 4096 mod 64).
    sextet (((val a * 256 + val b) * 256 + val c) / 64 mod 64).
    sextet (((val a * 256 + val b) * 256 + val c) mod 64).
    rewrite bytes3_encode, IH. reflexivity.
Qed.

End Base64Facts.

Module TileJsonFacts.
Import TileJson.

Lemma expect_app l s : expect l (l ++ s) = Some s.
Proof.
  induction l as [|c l IH]; cbn; [reflexivity|].
  rewrite (Byte.byte_dec_lb eq_refl). exact IH.
Qed.

Lemma parse_bytes_marshal b rest : parse_bytes (marshal_bytes b ++ rest) = Some (b, rest).
Proof.
  destruct b as [|x b].
  - cbn [marshal_bytes]. change (lit "null" ++ rest) with (Byte.x6e :: lit "ull" ++ rest).
    cbn [parse_bytes]. change (Byte.eqb Byte.x6e quote) with false. cbv iota.
    change (Byte.x6e :: lit "ull" ++ rest) with (lit "null" ++ rest).
    rewrite expect_app. reflexivity.
  - unfold marshal_bytes. cbn [app]. rewrite <- app_assoc. cbn [app parse_bytes].
    change (Byte.eqb quote quote) with true. cbv iota.
    rewrite Base64Facts.decode_encode by reflexivity.
    change (expect [quote] (quote :: rest)) with (Some rest). reflexivity.
Qed.

Lemma parse_leaf_marshal l rest : parse_leaf (marshal_leaf l ++ rest) = Some (l, rest).
Proof.
  unfold parse_leaf, marshal_leaf. destruct l as [p h]. cbn [leaf_Path leaf_Hash].
  rewrite <- !app_assoc. rewrite (app_assoc (lit "{")), expect_app.
  rewrite parse_bytes_marshal.
  rewrite (app_assoc (lit ",")), expect_app.
  rewrite parse_bytes_marshal, expect_app. reflexivity.
Qed.

Lemma parse_more_marshal ls : forall fuel rest,
  (List.length ls < fuel)%nat ->
  parse_more fuel (marshal_more ls ++ lit "]" ++ rest) = Some (ls, rest).
Proof.
  induction ls as [|l ls IH]; intros fuel rest Hfuel.
  - destruct fuel; [inversion Hfuel|]. reflexivity.
  - destruct fuel; [inversion Hfuel|]. cbn [marshal_more].
    rewrite <- !app_assoc. cbn [lit list_byte_of_string app parse_more].
    change (lit "," ++ ?x) with (Byte.x2c :: x).
    cbn [parse_more].
    change (Byte.eqb Byte.x2c Byte.x5d) with false.
    change (Byte.eqb Byte.x2c Byte.x2c) with true. cbv iota.
    rewrite parse_leaf_marshal, IH by (cbn in Hfuel; lia). reflexivity.
Qed.

Lemma marshal_more_length ls rest :
  (List.length ls < List.length (marshal_more ls ++ lit "]" ++ rest))%nat.
Proof.
  induction ls as [|l ls IH]; cbn [marshal_more List.length].
  - cbn. lia.
  - rewrite <- !app_assoc, !length_app in *. cbn [lit list_byte_of_string List.length] in *.
    change (List.length (lit ",")) with 1%nat. lia.
Qed.

Lemma parse_leaves_marshal ls rest :
  parse_leaves (marshal_leaves ls ++ rest) = Some (ls, rest).
Proof.
  destruct ls as [|l ls].
  - cbn [marshal_leaves]. change (lit "null" ++ rest) with (Byte.x6e :: lit "ull" ++ rest).
    cbn [parse_leaves]. change (Byte.eqb Byte.x6e Byte.x5b) with false. cbv iota.
    change (Byte.x6e :: lit "ull" ++ rest) with (lit "null" ++ rest).
    rewrite expect_app. reflexivity.
  - cbn [marshal_leaves]. rewrite <- !app_assoc.
    change (lit "[" ++ ?x) with (Byte.x5b :: x). cbn [parse_leaves].
    change (Byte.eqb Byte.x5b Byte.x5b) with true. cbv iota.
    assert (E : forall tl, expect (lit "]") (marshal_leaf l ++ tl) = None) by reflexivity.
    rewrite E, parse_leaf_marshal, parse_more_marshal by apply marshal_more_length.
    reflexivity.
Qed.

Theorem parse_tile_marshal t : parse_tile (marshal_tile t) = Some t.
Proof.
  unfold parse_tile, marshal_tile. destruct t as [p h ls].
  cbn [tile_Path tile_RootHash tile_Leaves].
  rewrite (app_assoc (lit "{")), expect_app.
  rewrite parse_bytes_marshal.
  rewrite (app_assoc (lit ",")), expect_app.
  rewrite parse_bytes_marshal.
  rewrite (app_assoc (lit ",")), expect_app.
  rewrite parse_leaves_marshal. reflexivity.
Qed.

End TileJsonFacts.

Lemma go_json_lawful : JsonLawful go_json.
Proof.
  intros t bs H. injection H as <-.
  unfold json_Unmarshal, go_json.
  rewrite TileJsonFacts.parse_tile_marshal. reflexivity.
Qed.



(** With the JSON text above, every tile comes back from its row. *)
Lemma go_json_row_roundtrip (r : Z) (t : batchmap_Tile) :
  @tileFromDBRowFn go_json (fst (@ProcessElement go_json {| fn_Revision := r |} t)) = Ok t.
Proof.
  unfold ProcessElement, tileFromDBRowFn. cbn [json_Marshal go_json fst Tile].
  rewrite (go_json_lawful t (TileJson.marshal_tile t) eq_refl). reflexivity.
Qed.

(** ** Scenarios *)

(** A full build with [count=-1] over a 1000-entry mirror with checkpoint
    [CP1] and no prior revision commits revision 0 over 1000 entries. *)
Example scenario_full_build :
  outcome (main flags_default world_1000) = Done tt
  /\ last (trace (main flags_default world_1000)) EvBeamInit = EvWriteRevision 0 CP1 1000
  /\ In (EvBatchmapCreate (entries_of flags_default (source_of flags_default 0 1000))
                          12345 hash 2)
        (trace (main flags_default world_1000)).
Proof.
  vm_compute. split; [reflexivity|]. split; [reflexivity|].
  do 8 right. left. reflexivity.
Qed.

(** After the mirror grew to 1500 entries with checkpoint [CP2], an
    incremental build reads the range [1000, 1500), reuses the tiles of
    revision 0 and commits revision 1 over 1500 entries. *)
Example scenario_incremental_build :
  outcome (main flags_incremental world_grown) = Done tt
  /\ last (trace (main flags_incremental world_grown)) EvBeamInit
       = EvWriteRevision 1 CP2 1500
  /\ In (EvBatchmapUpdate (priorTiles flags_incremental 0)
                          (entries_of flags_incremental (source_of flags_incremental 1000 1500))
                          12345 hash 2)
        (trace (main flags_incremental world_grown)).
Proof.
  vm_compute. split; [reflexivity|]. split; [reflexivity|].
  do 9 right. left. reflexivity.
Qed.

(** An incremental build without a prior revision fails and writes nothing. *)
Example scenario_incremental_no_revision :
  main flags_incremental world_1000
    = (connect_trace flags_incremental ++ [EvLatestRevision],
       Exited (RangeError_no_revision ErrNoRows)).
Proof. vm_compute. reflexivity. Qed.

(** ** Properties of the build orchestration *)

(** C1: in full mode, with [T] entries in the mirror and a requested cap
    [count <= T], range resolution does not fail and yields [startID = 0] and
    [endID = count] for a bounded (non-negative) cap, [endID = T] for an
    unbounded one; the run goes on to build the graph over the source range
    [0, endID).  With [T = 0] this is still so: the source range selects no
    entry, and when the tree builder, the engine and the commit succeed the
    run ends normally having committed the revision over 0 entries. *)
Theorem C1_full_mode_range fl w rev golden T :
  Connected fl w rev golden T ->
  incrementalUpdate fl = false ->
  count fl <= T ->
  let mapDB := {| tiledb_path := mapDBString fl |} in
  let endID := endID_of fl T in
  let entries := entries_of fl (source_of fl 0 endID) in
  let allTiles := batchmap_Create_node entries (treeID fl) hash (prefixStrata fl) in
  0 <= T
  /\ resolveRange fl w mapDB T = ([], Done (0, endID, 0))
  /\ (0 <= count fl -> endID = count fl)
  /\ (count fl < 0 -> endID = T)
  /\ (exists rest,
        trace (main fl w) =
          connect_trace fl
            ++ [EvBeamInit; EvNewPipeline;
                EvBatchmapCreate entries (treeID fl) hash (prefixStrata fl)]
            ++ rest)
  /\ (T = 0 ->
      batchmap_Create w entries (treeID fl) hash (prefixStrata fl) = None ->
      beamx_Run w (pipeline_of fl rev allTiles) = None ->
      tiledb_WriteRevision w rev golden 0 = None ->
      endID = 0
      /\ rows_in_range (sumdb_file w) 0 endID = []
      /\ main fl w =
           (connect_trace fl
              ++ [EvBeamInit; EvNewPipeline;
                  EvBatchmapCreate entries (treeID fl) hash (prefixStrata fl);
                  EvRun (pipeline_of fl rev allTiles);
                  EvWriteRevision rev golden 0],
            Done tt)).
Proof.
  intros C Hfull Hle mapDB endID entries allTiles.
  pose proof (Connected_nonneg _ _ _ _ _ C) as HT.
  pose proof (resolveRange_full fl w mapDB T Hfull Hle) as R.
  pose proof (buildTiles_full fl w 0 entries Hfull) as B.
  split; [exact HT|]. split; [exact R|].
  split; [apply endID_of_bounded|]. split; [apply endID_of_unbounded|].
  split.
  - destruct (batchmap_Create w entries (treeID fl) hash (prefixStrata fl)) eqn:E.
    + rewrite (main_tree_exit _ _ _ _ _ C _ _ _ _ _ _ R B). cbn. exists []. reflexivity.
    + rewrite (main_run _ _ _ _ _ C _ _ _ _ _ _ R B). cbn. eexists. reflexivity.
  - intros HT0 Hc Hr Hw.
    assert (HE : endID_of fl T = 0).
    { unfold endID_of. destruct (Z.ltb_spec (count fl) 0); lia. }
    split; [exact HE|]. split.
    + unfold rows_in_range.
      rewrite (conn_count _ _ _ _ _ C) in HT0.
      destruct (leafMetadata (sumdb_file w)); [reflexivity | discriminate].
    + rewrite Hc in B.
      rewrite (main_run _ _ _ _ _ C _ _ _ _ _ _ R B).
      unfold allTiles, entries, endID in *.
      rewrite Hr, HE, Hw. reflexivity.
Qed.

(** The scenario of an empty mirror with one checkpoint, default flags. *)
Lemma C1_full_mode_range_witness :
  resolveRange flags_default world_empty {| tiledb_path := "map.db" |} 0
    = ([], Done (0, 0, 0))
  /\ outcome (main flags_default world_empty) = Done tt
  /\ In (EvWriteRevision 0 CP1 0) (trace (main flags_default world_empty)).
Proof.
  assert (C : Connected flags_default world_empty 0 CP1 (Z.of_nat 0)).
  { apply (quiet_Connected flags_default [(1, CP1)] 0 0 (Err ErrNoRows) 1 CP1); reflexivity. }
  assert (Hle : count flags_default <= Z.of_nat 0) by (cbn; lia).
  destruct (C1_full_mode_range flags_default world_empty 0 CP1 (Z.of_nat 0) C eq_refl Hle)
    as (_ & R & _ & _ & _ & H0).
  destruct (H0 eq_refl eq_refl eq_refl eq_refl) as (_ & _ & M).
  split; [exact R|]. rewrite M. split; [reflexivity|].
  cbn. right; right; right; right; right; right; right; right; right; right. left. reflexivity.
Defined.

(** C2: in every run, a [WriteRevision] call is the last event of the run
    and directly follows the [beamx.Run] of the graph, which returned without
    error; its arguments are the revision number handed out by
    [NextWriteRevision], the checkpoint read from the mirror and [endID]; no
    other [WriteRevision] occurs.  If the engine reports an error the run
    ends fatally and contains no [WriteRevision].  A run that ends normally
    ends with such a commit. *)
Theorem C2_commit_after_run fl w :
  (forall rev cp n, In (EvWriteRevision rev cp n) (trace (main fl w)) ->
     exists pre p T,
       trace (main fl w) = pre ++ [EvRun p; EvWriteRevision rev cp n]
       /\ beamx_Run w p = None
       /\ Connected fl w rev cp T
       /\ n = endID_of fl T
       /\ sink_dsn p = mapDBString fl /\ sink_table p = "tiles"
       /\ (exists allTiles,
             sink_rows p = beam_ParDo "convertoutput" (tileToDBRowFn_ rev) allTiles)
       /\ forallb (fun e => negb (is_WriteRevision e)) pre = true)
  /\ (forall p err, In (EvRun p) (trace (main fl w)) -> beamx_Run w p = Some err ->
        outcome (main fl w) = Exited (Exitf_msg "Failed to execute job: %q" [AErr err])
        /\ forallb (fun e => negb (is_WriteRevision e)) (trace (main fl w)) = true)
  /\ (outcome (main fl w) = Done tt ->
        exists pre p rev cp n,
          trace (main fl w) = pre ++ [EvRun p; EvWriteRevision rev cp n]
          /\ beamx_Run w p = None /\ tiledb_WriteRevision w rev cp n = None).
Proof.
  destruct (main_shape fl w) as
    [ t t' m Hpre Hfmt Hnot | rev golden T C Hlt | rev golden T err C Hle Hmode HL
    | rev golden T l cp s C Hle Hmode HL Hge
    | rev golden T s l err C Hres entries HT
    | rev golden T s l err C Hres entries p HT HR
    | rev golden T s l C Hres entries p HT HR ];
    unfold trace, outcome; cbn [fst snd].
  all: split; [intros rev' cp' n' Hin | split; [intros p' err' Hin Hrun | intros Hdone]].
  all: try discriminate Hdone.
  all: try (exfalso; try (apply (In_connect_prefix _ _ _ _ Hpre) in Hin); in_trace Hin; fail).
  - (* the engine failed *)
    in_trace Hin. injection Hin as <-. fold entries in Hrun. fold p in Hrun.
    rewrite HR in Hrun. injection Hrun as <-. split; [reflexivity|].
    unfold connect_trace, range_trace, tree_call.
    destruct (incrementalUpdate fl); reflexivity.
  - (* the commit *)
    in_trace Hin. injection Hin as <- <- <-.
    exists (connect_trace fl ++ range_trace fl
              ++ [EvBeamInit; EvNewPipeline; tree_call fl l entries]), p, T.
    split; [rewrite <- !app_assoc; reflexivity|].
    split; [exact HR|]. split; [exact C|]. split; [reflexivity|].
    split; [reflexivity|]. split; [reflexivity|].
    split; [eexists; reflexivity|].
    unfold connect_trace, range_trace, tree_call.
    destruct (incrementalUpdate fl); reflexivity.
  - in_trace Hin. injection Hin as <-. fold entries in Hrun. fold p in Hrun. congruence.
  - destruct (tiledb_WriteRevision w rev golden (endID_of fl T)) eqn:HW; [discriminate|].
    exists (connect_trace fl ++ range_trace fl
              ++ [EvBeamInit; EvNewPipeline; tree_call fl l entries]),
           p, rev, golden, (endID_of fl T).
    split; [rewrite <- !app_assoc; reflexivity|]. split; assumption.
Qed.

(** The incremental build over [1000, 1500) commits revision 1. *)
Lemma C2_commit_after_run_witness :
  exists pre p,
    trace (main flags_incremental world_grown)
      = pre ++ [EvRun p; EvWriteRevision 1 CP2 1500]
    /\ beamx_Run world_grown p = None.
Proof.
  assert (Hin : In (EvWriteRevision 1 CP2 1500) (trace (main flags_incremental world_grown))).
  { vm_compute. do 11 right. left. reflexivity. }
  destruct (proj1 (C2_commit_after_run flags_incremental world_grown) 1 CP2 1500 Hin)
    as (pre & p & T & E & HR & _).
  exists pre, p. split; assumption.
Defined.



(** C4: with both [incremental_update] and [build_version_list] set, whatever
    the other flags and whatever the stores hold, the run ends at once with
    the configuration error and has performed no call out of the process. *)
Theorem C4_config_error_before_io fl w :
  incrementalUpdate fl = true ->
  buildVersionList fl = true ->
  main fl w = ([], Exited ConfigError).
Proof.
  intros Hinc Hver. unfold main. rewrite Hinc, Hver. reflexivity.
Qed.

Lemma C4_config_error_before_io_witness :
  main (with_modes flags_default true true) world_1000 = ([], Exited ConfigError).
Proof.
  apply C4_config_error_before_io; reflexivity.
Defined.

(** C5: a run that builds a graph makes exactly one tree-builder call, and
    no run makes more.  In full mode the call is [batchmap.Create] on the
    leaves with the tree id, the hash and the prefix strata, and nothing
    handed to the builder or the engine reads the [tiles] table; in
    incremental mode it is [batchmap.Update], whose prior tiles are the rows
    of [tiles] at the revision [LatestRevision] returned, each through
    [tileFromDBRowFn]. *)
Theorem C5_one_tree_call fl w :
  let calls := filter is_tree_call (trace (main fl w)) in
  (calls = []
   /\ forallb (fun e => negb (is_pipeline_event e)) (trace (main fl w)) = true)
  \/ (exists rev golden T startID lastMapRev,
        Connected fl w rev golden T
        /\ resolved fl w T startID lastMapRev
        /\ In EvNewPipeline (trace (main fl w))
        /\ let entries := entries_of fl (source_of fl startID (endID_of fl T)) in
           if incrementalUpdate fl then
             calls = [EvBatchmapUpdate (priorTiles fl lastMapRev) entries
                                       (treeID fl) hash (prefixStrata fl)]
             /\ priorTiles fl lastMapRev =
                  beam_ParDo "" tileFromDBRowFn_
                    (databaseio_Query "" "sqlite3" (mapDBString fl)
                                      (SelectTilesAtRevision lastMapRev))
             /\ exists cp, tiledb_LatestRevision w = Ok (lastMapRev, cp, startID)
           else
             calls = [EvBatchmapCreate entries (treeID fl) hash (prefixStrata fl)]
             /\ forallb (fun e => negb (event_reads_tiles e)) (trace (main fl w)) = true).
Proof.
  destruct (main_shape fl w) as
    [ t t' m Hpre Hfmt Hnot | rev golden T C Hlt | rev golden T err C Hle Hmode HL
    | rev golden T l cp s C Hle Hmode HL Hge
    | rev golden T s l err C Hres entries HT
    | rev golden T s l err C Hres entries p HT HR
    | rev golden T s l C Hres entries p HT HR ];
    unfold trace; cbn [fst].
  - left. split.
    + apply (connect_prefix_filter fl t t' is_tree_call Hpre). reflexivity.
    + apply (connect_prefix_forallb fl t t' _ Hpre). reflexivity.
  - left. split; reflexivity.
  - left. split; reflexivity.
  - left. split; reflexivity.
  - right. exists rev, golden, T, s, l.
    split; [exact C|]. split; [exact Hres|].
    destruct Hres as [Hle Hres]. fold entries.
    unfold range_trace, tree_call, priorTiles in *. subst entries. unfold entries_of.
    destruct (incrementalUpdate fl), (buildVersionList fl); cbn;
      (split; [tauto|]); [ destruct Hres as (cp & HL & _); eauto .. | tauto | tauto ].
  - right. exists rev, golden, T, s, l.
    split; [exact C|]. split; [exact Hres|].
    destruct Hres as [Hle Hres]. fold entries.
    unfold range_trace, tree_call, tree_node, priorTiles in *. subst p entries.
    unfold entries_of.
    destruct (incrementalUpdate fl), (buildVersionList fl); cbn;
      (split; [tauto|]); [ destruct Hres as (cp & HL & _); eauto .. | tauto | tauto ].
  - right. exists rev, golden, T, s, l.
    split; [exact C|]. split; [exact Hres|].
    destruct Hres as [Hle Hres]. fold entries.
    unfold range_trace, tree_call, tree_node, priorTiles in *. subst p entries.
    unfold entries_of.
    destruct (incrementalUpdate fl), (buildVersionList fl); cbn;
      (split; [tauto|]); [ destruct Hres as (cp & HL & _); eauto .. | tauto | tauto ].
Qed.

(** The incremental build over [1000, 1500) updates the tiles of revision 0. *)
Lemma C5_one_tree_call_witness :
  exists entries,
    filter is_tree_call (trace (main flags_incremental world_grown))
      = [EvBatchmapUpdate (priorTiles flags_incremental 0) entries 12345 hash 2].
Proof.
  destruct (C5_one_tree_call flags_incremental world_grown)
    as [[H _] | (rev & golden & T & s & l & _ & _ & _ & H)].
  - vm_compute in H. discriminate H.
  - change (incrementalUpdate flags_incremental) with true in H. cbv iota zeta in H.
    destruct H as (H & _ & cp & HL).
    change (tiledb_LatestRevision world_grown) with (@Ok (Z * bytes * Z) (0, CP1, 1000)) in HL.
    injection HL as <- _ _.
    eexists. exact H.
Defined.

(** C6: when the requested cap is greater than the number [T] of entries in
    the mirror, the run ends fatally, and none of its events builds or runs a
    graph or writes a revision; when the stores open and the metadata read
    succeeds the fatal message is the insufficient-entries error, raised by
    range resolution right after the metadata read. *)
Theorem C6_insufficient_entries fl w T :
  T = Z.of_nat (List.length (leafMetadata (sumdb_file w))) ->
  T < count fl ->
  (exists m, outcome (main fl w) = Exited m)
  /\ forallb (fun e => negb (is_pipeline_event e) && negb (is_WriteRevision e))
             (trace (main fl w)) = true
  /\ resolveRange fl w {| tiledb_path := mapDBString fl |} T
       = ([], Exited (RangeError_insufficient (count fl) T))
  /\ (forall rev golden,
        Connected fl w rev golden T ->
        main fl w = (connect_trace fl, Exited (RangeError_insufficient (count fl) T))).
Proof.
  intros HT Hlt.
  pose proof (resolveRange_insufficient fl w {| tiledb_path := mapDBString fl |} T Hlt) as R.
  assert (M : forall rev golden,
             Connected fl w rev golden T ->
             main fl w = (connect_trace fl, Exited (RangeError_insufficient (count fl) T))).
  { intros rev golden C. rewrite (main_range_exit _ _ _ _ _ C _ _ R), app_nil_r. reflexivity. }
  assert (H : (exists m, outcome (main fl w) = Exited m)
              /\ forallb (fun e => negb (is_pipeline_event e) && negb (is_WriteRevision e))
                         (trace (main fl w)) = true).
  { destruct (main_connect_cases fl w)
      as [(t & t' & m & E & Hpre & _ & _) | (rev & golden & T' & C)].
    - rewrite E. unfold trace, outcome. cbn [fst snd].
      split; [exists m; reflexivity|].
      apply (connect_prefix_forallb fl t t' _ Hpre). reflexivity.
    - assert (T' = T) by (rewrite HT; exact (conn_count _ _ _ _ _ C)). subst T'.
      rewrite (M rev golden C). unfold trace, outcome. cbn [fst snd].
      split; [eexists; reflexivity | reflexivity]. }
  destruct H as [H1 H2]. split; [exact H1|]. split; [exact H2|]. split; [exact R | exact M].
Qed.

(** [count=2000] against a 1000-entry mirror. *)
Lemma C6_insufficient_entries_witness :
  main flags_count_2000 world_1000
    = (connect_trace flags_count_2000, Exited (RangeError_insufficient 2000 1000)).
Proof.
  assert (C : Connected flags_count_2000 world_1000 0 CP1 (Z.of_nat 1000)).
  { apply (quiet_Connected flags_count_2000 [(1, CP1)] 1000 0 (Err ErrNoRows) 1 CP1);
      reflexivity. }
  assert (HT : Z.of_nat 1000
               = Z.of_nat (List.length (leafMetadata (sumdb_file world_1000)))).
  { exact (conn_count _ _ _ _ _ C). }
  assert (Hlt : Z.of_nat 1000 < count flags_count_2000) by (cbn; lia).
  destruct (C6_insufficient_entries flags_count_2000 world_1000 (Z.of_nat 1000) HT Hlt)
    as (_ & _ & _ & M).
  exact (M 0 CP1 C).
Defined.

(** C7, as stated, fails: in the run of [count=2000] against a 1000-entry
    mirror the revision number is allocated as the fourth event, before
    either metadata query of the mirror, and the run then ends with the
    insufficient-entries error of range resolution. *)
Lemma C7_allocation_precedes_resolution :
  main flags_count_2000 world_1000
    = ([EvSqlOpen "sum.db"; EvNewTileDB "map.db"; EvTileDBInit; EvNextWriteRevision;
        EvQueryRow SelectLatestCheckpoint; EvQueryRow SelectCountLeafMetadata],
       Exited (RangeError_insufficient 2000 1000))
  /\ ~ allocation_after_resolution (main flags_count_2000 world_1000).
Proof.
  split; [vm_compute; reflexivity|].
  intros H.
  destruct (H [EvSqlOpen "sum.db"; EvNewTileDB "map.db"; EvTileDBInit]
              [EvQueryRow SelectLatestCheckpoint; EvQueryRow SelectCountLeafMetadata])
    as [[q Hq] _].
  - vm_compute. reflexivity.
  - cbn in Hq. intuition discriminate.
Qed.

(** C7, amended: the check of the two mode flags comes first and ends the
    run before any call out of the process.  Otherwise the revision number
    is allocated by [NextWriteRevision] inside [sinkFromFlags], while the
    tile database is opened: every metadata query of the mirror and the
    latest-revision query of range resolution come after it, and a run that
    ends with a range error has already allocated its revision number. *)
Theorem C7_allocation_then_resolution fl w :
  (buildVersionList fl && incrementalUpdate fl = true ->
   main fl w = ([], Exited ConfigError))
  /\ (forall pre e post,
        trace (main fl w) = pre ++ e :: post ->
        is_range_event e = true ->
        In EvNextWriteRevision pre)
  /\ (forall m,
        outcome (main fl w) = Exited m -> is_RangeError m ->
        exists post,
          trace (main fl w) =
            [EvSqlOpen (sumDBString fl); EvNewTileDB (mapDBString fl); EvTileDBInit;
             EvNextWriteRevision] ++ post).
Proof.
  split; [|split].
  - intros H. unfold main. rewrite H. reflexivity.
  - intros pre e post E He.
    destruct (preceded_by_spec _ _ _ (main_alloc_first fl w) pre e post E He)
      as (x & Hin & Hx).
    destruct x; try discriminate. exact Hin.
  - intros m.
    destruct (main_shape fl w) as
      [ t t' m' Hpre Hfmt Hnot | rev golden T C Hlt | rev golden T err C Hle Hmode HL
      | rev golden T l cp s C Hle Hmode HL Hge
      | rev golden T s l err C Hres entries HT
      | rev golden T s l err C Hres entries p HT HR
      | rev golden T s l C Hres entries p HT HR ];
      unfold trace, outcome; cbn [fst snd]; intros E HR'.
    2-7: eexists; cbn; reflexivity.
    exfalso. injection E as <-.
    destruct HR' as [(a & b & ->) | [(a & ->) | (a & b & ->)]];
      cbn in Hfmt; intuition discriminate.
Qed.

(** The run of [count=2000] against 1000 entries has its revision number
    before it fails. *)
Lemma C7_allocation_then_resolution_witness :
  exists post,
    trace (main flags_count_2000 world_1000)
      = [EvSqlOpen "sum.db"; EvNewTileDB "map.db"; EvTileDBInit; EvNextWriteRevision] ++ post.
Proof.
  assert (E : outcome (main flags_count_2000 world_1000)
              = Exited (RangeError_insufficient 2000 1000)) by (vm_compute; reflexivity).
  assert (HR : is_RangeError (RangeError_insufficient 2000 1000)).
  { left. exists 2000, 1000. reflexivity. }
  exact (proj2 (proj2 (C7_allocation_then_resolution flags_count_2000 world_1000)) _ E HR).
Defined.

(** C8: when [getEntryMetadata] succeeds, the checkpoint it returns is a row
    of [checkpoints] whose [datetime] no other row exceeds, and the count is
    the number of rows of [leafMetadata]; with a non-empty [checkpoints] table
    and no read failure it does succeed.  When the table holds no checkpoint
    the read fails with [sql.ErrNoRows] (or the driver's error), and [main]
    then ends fatally having built and run no graph and written no
    revision. *)
Theorem C8_entry_metadata fl w :
  (forall m t cp n,
      getEntryMetadata w m = (t, Done (Ok (cp, n))) ->
      (exists dt, In (dt, cp) (checkpoints (db m))
                  /\ forall dt' cp', In (dt', cp') (checkpoints (db m)) -> dt' <= dt)
      /\ n = Z.of_nat (List.length (leafMetadata (db m))))
  /\ (forall m,
        checkpoints (db m) <> [] ->
        checkpoint_scan_fault w = None -> count_scan_fault w = None ->
        exists cp,
          getEntryMetadata w m =
            ([EvQueryRow SelectLatestCheckpoint; EvQueryRow SelectCountLeafMetadata],
             Done (Ok (cp, Z.of_nat (List.length (leafMetadata (db m)))))))
  /\ (forall m,
        checkpoints (db m) = [] ->
        getEntryMetadata w m =
          ([EvQueryRow SelectLatestCheckpoint],
           Done (Err match checkpoint_scan_fault w with
                     | Some err => err
                     | None => ErrNoRows
                     end)))
  /\ (checkpoints (sumdb_file w) = [] ->
      (exists m, outcome (main fl w) = Exited m)
      /\ forallb (fun e => negb (is_pipeline_event e) && negb (is_WriteRevision e))
                 (trace (main fl w)) = true).
Proof.
  split; [|split; [|split]].
  - intros m t cp n. unfold getEntryMetadata, scan_checkpoint, scan_count.
    destruct (checkpoint_scan_fault w); cbn; [discriminate|].
    destruct (latest_row (checkpoints (db m))) as [[dt cp0]|] eqn:L; cbn; [|discriminate].
    destruct (count_scan_fault w); cbn; [discriminate|].
    intros H. injection H as _ <- <-. split; [|reflexivity].
    exists dt. split.
    + exact (latest_row_In _ _ L).
    + intros dt' cp' Hin. exact (latest_row_max _ _ L (dt', cp') Hin).
  - intros m Hne Hf1 Hf2. unfold getEntryMetadata, scan_checkpoint, scan_count.
    rewrite Hf1, Hf2.
    destruct (latest_row (checkpoints (db m))) as [[dt cp0]|] eqn:L.
    + exists cp0. reflexivity.
    + apply latest_row_None in L. contradiction.
  - intros m Hnil. unfold getEntryMetadata, scan_checkpoint. rewrite Hnil.
    destruct (checkpoint_scan_fault w); reflexivity.
  - intros Hnil.
    destruct (main_shape fl w) as
      [ t t' m Hpre Hfmt Hnot | rev golden T C Hlt | rev golden T err C Hle Hmode HL
      | rev golden T l cp s C Hle Hmode HL Hge
      | rev golden T s l err C Hres entries HT
      | rev golden T s l err C Hres entries p HT HR
      | rev golden T s l C Hres entries p HT HR ].
    2-7: exfalso; destruct (conn_cp _ _ _ _ _ C) as [dt L]; rewrite Hnil in L; discriminate.
    split; [exists m; reflexivity|].
    apply (connect_prefix_forallb fl t t' _ Hpre). reflexivity.
Qed.

(** A mirror without checkpoint. *)
Lemma C8_entry_metadata_witness :
  exists m, outcome (main flags_default world_no_checkpoint) = Exited m.
Proof.
  exact (proj1 (proj2 (proj2 (proj2 (C8_entry_metadata flags_default world_no_checkpoint)))
                 eq_refl)).
Defined.



(** C10: any two negative values of [count] give the same run of [main] in
    every world.  With a negative [count] and [T >= 0] entries, range
    resolution takes [endID = T]; it cannot end with the insufficient-entries
    error, and neither can [main]. *)
Theorem C10_negative_count_unbounded fl w c1 c2 :
  c1 < 0 -> c2 < 0 ->
  main (with_count fl c1) w = main (with_count fl c2) w
  /\ (forall wanted available,
        outcome (main (with_count fl c1) w)
          <> Exited (RangeError_insufficient wanted available))
  /\ (forall mapDB T, 0 <= T ->
        endID_of (with_count fl c1) T = T
        /\ resolveRange (with_count fl c1) w mapDB T
             = resolveRange (with_count fl c2) w mapDB T
        /\ (forall t m, resolveRange (with_count fl c1) w mapDB T = (t, Exited m) ->
              incrementalUpdate fl = true /\ t = [EvLatestRevision]
              /\ ((exists err, m = RangeError_no_revision err)
                  \/ (exists startID, m = RangeError_not_advancing startID T)))
        /\ (forall t s e l, resolveRange (with_count fl c1) w mapDB T = (t, Done (s, e, l)) ->
              e = T)).
Proof.
  intros H1 H2. split; [exact (main_with_count fl w c1 c2 H1 H2)|]. split.
  - intros wanted available.
    destruct (main_shape (with_count fl c1) w) as
      [ t t' m Hpre Hfmt Hnot | rev golden T C Hlt | rev golden T err C Hle Hmode HL
      | rev golden T l cp s C Hle Hmode HL Hge
      | rev golden T s l err C Hres entries HT
      | rev golden T s l err C Hres entries p HT HR
      | rev golden T s l C Hres entries p HT HR ];
      unfold outcome; cbn [snd]; try discriminate.
    + intros E. injection E as E. rewrite E in Hfmt. cbn in Hfmt.
      intuition discriminate.
    + pose proof (Connected_nonneg _ _ _ _ _ C). cbn in Hlt. lia.
    + destruct (tiledb_WriteRevision w rev golden _); discriminate.
  - intros mapDB T HT.
    assert (HE : endID_of (with_count fl c1) T = T) by (apply endID_of_unbounded; exact H1).
    split; [exact HE|].
    split; [exact (resolveRange_with_count fl w mapDB T c1 c2 HT H1 H2)|].
    assert (Hle : count (with_count fl c1) <= T) by (cbn; lia).
    destruct (incrementalUpdate fl) eqn:Hmode.
    + rewrite (resolveRange_incremental (with_count fl c1) w mapDB T Hmode Hle), HE.
      destruct (tiledb_LatestRevision w) as [[[l cp] s]|err]; [destruct (s >=? T)|];
        split; intros; try discriminate.
      * injection H as <- <-. eauto 6.
      * injection H as <- <- <- <-. reflexivity.
      * injection H as <- <-. eauto 6.
    + rewrite (resolveRange_full (with_count fl c1) w mapDB T Hmode Hle), HE.
      split; intros; try discriminate. injection H as <- <- <- <-. reflexivity.
Qed.

(** [count=-1] and [count=-7] against the 1000-entry mirror. *)
Lemma C10_negative_count_unbounded_witness :
  main (with_count flags_default (-1)) world_1000
    = main (with_count flags_default (-7)) world_1000.
Proof.
  assert (H1 : -1 < 0) by lia. assert (H2 : -7 < 0) by lia.
  exact (proj1 (C10_negative_count_unbounded flags_default world_1000 (-1) (-7) H1 H2)).
Defined.

(** ** Further properties of the command *)

(** [sinkFromFlags] opens the tile database, initialises it and asks for the
    next write revision, in that order, and stops at the first step that
    fails: [Init] is only called on a database that opened, and
    [NextWriteRevision] only after [Init] succeeded.  With an empty [map_db]
    flag nothing is opened.  It succeeds exactly when the flag is set and all
    three steps succeed, and then returns the revision number the database
    gave; it never ends the process itself. *)
Theorem sinkFromFlags_steps fl w :
  (is_empty (mapDBString fl) = true ->
   sinkFromFlags fl w = ([], Done (Err (Errorf "missing flag: map_db" []))))
  /\ (exists rest,
        [EvNewTileDB (mapDBString fl); EvTileDBInit; EvNextWriteRevision]
          = trace (sinkFromFlags fl w) ++ rest)
  /\ (In EvTileDBInit (trace (sinkFromFlags fl w)) ->
      mapdb_NewTileDB w (mapDBString fl) = None)
  /\ (In EvNextWriteRevision (trace (sinkFromFlags fl w)) ->
      mapdb_NewTileDB w (mapDBString fl) = None /\ tiledb_Init w = None)
  /\ (forall d rev,
        outcome (sinkFromFlags fl w) = Done (Ok (d, rev)) <->
        is_empty (mapDBString fl) = false
        /\ mapdb_NewTileDB w (mapDBString fl) = None
        /\ tiledb_Init w = None
        /\ tiledb_NextWriteRevision w = Ok rev
        /\ d = {| tiledb_path := mapDBString fl |})
  /\ (forall m, outcome (sinkFromFlags fl w) <> Exited m).
Proof.
  unfold sinkFromFlags.
  destruct (is_empty (mapDBString fl)) eqn:He;
    [| destruct (mapdb_NewTileDB w (mapDBString fl)) eqn:Hn;
       [| destruct (tiledb_Init w) eqn:Hi;
          [| destruct (tiledb_NextWriteRevision w) as [r|e] eqn:Hr]]];
    cbn.
  all: split; [intros; try reflexivity; discriminate|].
  all: split; [eexists; cbn; reflexivity|].
  all: split; [intros H; try reflexivity; intuition discriminate|].
  all: split; [intros H; try (split; reflexivity); intuition discriminate|].
  all: split; [|intros m; discriminate].
  all: intros d rev; split;
    [ intros H; try discriminate H
    | intros (H1 & H2 & H3 & H4 & H5); try discriminate ].
  - injection H as <- <-. repeat split; reflexivity.
  - injection H4 as <-. subst d. reflexivity.
Qed.

Lemma Connected_unique fl w rev golden T rev' golden' T' :
  Connected fl w rev golden T -> Connected fl w rev' golden' T' ->
  rev' = rev /\ golden' = golden /\ T' = T.
Proof.
  intros C C'.
  pose proof (conn_rev _ _ _ _ _ C) as H1. rewrite (conn_rev _ _ _ _ _ C') in H1.
  destruct (conn_cp _ _ _ _ _ C) as [dt H2]. destruct (conn_cp _ _ _ _ _ C') as [dt' H2'].
  rewrite H2' in H2.
  rewrite (conn_count _ _ _ _ _ C), (conn_count _ _ _ _ _ C').
  repeat split; congruence.
Qed.

Lemma resolved_resolveRange fl w T s l :
  resolved fl w T s l ->
  resolveRange fl w {| tiledb_path := mapDBString fl |} T
    = (range_trace fl, Done (s, endID_of fl T, l)).
Proof.
  intros [Hle H]. unfold range_trace. destruct (incrementalUpdate fl) eqn:Hmode.
  - destruct H as (cp & HL & Hlt).
    rewrite (resolveRange_incremental fl w _ T Hmode Hle), HL.
    destruct (Z.geb_spec s (endID_of fl T)); [lia | reflexivity].
  - destruct H as [-> ->]. exact (resolveRange_full fl w _ T Hmode Hle).
Qed.

Lemma endID_of_range fl T : 0 <= T -> count fl <= T -> 0 <= endID_of fl T <= T.
Proof.
  intros HT Hle. unfold endID_of. destruct (Z.ltb_spec (count fl) 0); lia.
Qed.

(** [main] ends normally exactly when every step on its path succeeded: the
    stores connect and give their metadata, the range resolves, the tree
    builder accepts the graph, the engine runs it and the commit is written.
    Any error of a collaborator ends the run fatally. *)
Theorem main_Done_iff fl w :
  outcome (main fl w) = Done tt <->
  exists rev golden T startID lastMapRev,
    Connected fl w rev golden T
    /\ resolved fl w T startID lastMapRev
    /\ let entries := entries_of fl (source_of fl startID (endID_of fl T)) in
       tree_error fl w lastMapRev entries = None
       /\ beamx_Run w (pipeline_of fl rev (tree_node fl lastMapRev entries)) = None
       /\ tiledb_WriteRevision w rev golden (endID_of fl T) = None.
Proof.
  split.
  - destruct (main_shape fl w) as
      [ t t' m Hpre Hfmt Hnot | rev golden T C Hlt | rev golden T err C Hle Hmode HL
      | rev golden T l cp s C Hle Hmode HL Hge
      | rev golden T s l err C Hres entries HT
      | rev golden T s l err C Hres entries p HT HR
      | rev golden T s l C Hres entries p HT HR ];
      unfold outcome; cbn [snd]; intros H; try discriminate H.
    destruct (tiledb_WriteRevision w rev golden (endID_of fl T)) eqn:HW; [discriminate|].
    exists rev, golden, T, s, l.
    split; [exact C|]. split; [exact Hres|]. cbv zeta.
    split; [exact HT|]. split; [exact HR | exact HW].
  - intros (rev & golden & T & s & l & C & Hres & HT & HR & HW).
    pose proof (resolved_resolveRange fl w T s l Hres) as R.
    pose proof (buildTiles_shape fl w l (entries_of fl (source_of fl s (endID_of fl T)))) as B.
    rewrite HT in B.
    rewrite (main_run _ _ _ _ _ C _ _ _ _ _ _ R B). unfold outcome. cbn [snd].
    rewrite HR, HW. reflexivity.
Qed.

(** A full build never looks at earlier revisions: what the tile database
    reports as its latest revision, and what [batchmap.Update] would answer,
    do not change the run.  An incremental build likewise never calls
    [batchmap.Create]. *)
Theorem main_mode_independence fl w :
  (incrementalUpdate fl = false ->
   forall latest update, main fl (with_prior w latest update) = main fl w)
  /\ (incrementalUpdate fl = true ->
      forall create, main fl (with_create w create) = main fl w).
Proof.
  split; intros Hmode; intros; unfold main, resolveRange, buildTiles;
    rewrite Hmode; reflexivity.
Qed.

Lemma main_mode_independence_witness :
  main flags_default (with_prior world_1000 (Ok (7, CP2, 5000)) (fun _ _ _ _ _ => Some ErrNoRows))
    = main flags_default world_1000.
Proof.
  exact (proj1 (main_mode_independence flags_default world_1000) eq_refl _ _).
Defined.

Lemma queries_tree_node fl l s e :
  In ("sqlite3", sumDBString fl, SelectLeafMetadataRange s e)
     (queries (tree_node fl l (entries_of fl (source_of fl s e))))
  /\ Forall (query_of_build fl s e l)
            (queries (tree_node fl l (entries_of fl (source_of fl s e))))
  /\ version_lists (tree_node fl l (entries_of fl (source_of fl s e)))
     = (if buildVersionList fl then 1 else 0)%nat.
Proof.
  unfold tree_node, entries_of, source_of, priorTiles, query_of_build.
  destruct (incrementalUpdate fl), (buildVersionList fl); cbn;
    (split; [tauto | split; [repeat constructor; tauto | reflexivity]]).
Qed.

(** The graph handed to the engine reads the mirror over one range
    [startID, endID) and nothing else of the mirror; [endID] is at least 0 and
    at most the number of entries the mirror holds.  In full mode [startID]
    is 0 and the graph reads no tiles; in incremental mode [startID] is the
    entry count of the latest revision, is below [endID], and the only other
    read is of that revision's tiles, from the database the sink writes to.
    The version-list transform is in the graph exactly when
    [build_version_list] is set, which excludes incremental mode.  The sink
    writes table [tiles] of the [map_db] database in batches of
    [write_batch_size], and a commit in the same run records [endID]. *)
Theorem graph_reads_resolved_range fl w p :
  In (EvRun p) (trace (main fl w)) ->
  exists startID endID lastMapRev,
    0 <= endID <= Z.of_nat (List.length (leafMetadata (sumdb_file w)))
    /\ (if incrementalUpdate fl then
          startID < endID
          /\ exists cp, tiledb_LatestRevision w = Ok (lastMapRev, cp, startID)
        else startID = 0)
    /\ In ("sqlite3", sumDBString fl, SelectLeafMetadataRange startID endID)
          (queries (sink_rows p))
    /\ Forall (query_of_build fl startID endID lastMapRev) (queries (sink_rows p))
    /\ version_lists (sink_rows p) = (if buildVersionList fl then 1 else 0)%nat
    /\ buildVersionList fl && incrementalUpdate fl = false
    /\ sink_driver p = "sqlite3" /\ sink_dsn p = mapDBString fl
    /\ sink_table p = "tiles" /\ sink_batchSize p = batchSize fl
    /\ (forall rev cp n, In (EvWriteRevision rev cp n) (trace (main fl w)) -> n = endID).
Proof.
  assert (K : forall rev golden T s l,
             Connected fl w rev golden T -> resolved fl w T s l ->
             p = pipeline_of fl rev (tree_node fl l (entries_of fl (source_of fl s (endID_of fl T)))) ->
             (forall rev' cp n, In (EvWriteRevision rev' cp n) (trace (main fl w)) ->
                                n = endID_of fl T) ->
             exists startID endID lastMapRev,
               0 <= endID <= Z.of_nat (List.length (leafMetadata (sumdb_file w)))
               /\ (if incrementalUpdate fl then
                     startID < endID
                     /\ exists cp, tiledb_LatestRevision w = Ok (lastMapRev, cp, startID)
                   else startID = 0)
               /\ In ("sqlite3", sumDBString fl, SelectLeafMetadataRange startID endID)
                     (queries (sink_rows p))
               /\ Forall (query_of_build fl startID endID lastMapRev) (queries (sink_rows p))
               /\ version_lists (sink_rows p) = (if buildVersionList fl then 1 else 0)%nat
               /\ buildVersionList fl && incrementalUpdate fl = false
               /\ sink_driver p = "sqlite3" /\ sink_dsn p = mapDBString fl
               /\ sink_table p = "tiles" /\ sink_batchSize p = batchSize fl
               /\ (forall rev cp n, In (EvWriteRevision rev cp n) (trace (main fl w)) ->
                                    n = endID)).
  { intros rev golden T s l C [Hle Hres] -> HW.
    exists s, (endID_of fl T), l.
    split.
    { rewrite <- (conn_count _ _ _ _ _ C).
      exact (endID_of_range fl T (Connected_nonneg _ _ _ _ _ C) Hle). }
    split.
    { destruct (incrementalUpdate fl).
      - destruct Hres as (cp & HL & Hlt). split; [exact Hlt | exists cp; exact HL].
      - tauto. }
    cbn [pipeline_of sink_rows queries version_lists
         sink_driver sink_dsn sink_table sink_batchSize].
    destruct (queries_tree_node fl l s (endID_of fl T)) as (Q1 & Q2 & Q3).
    pose proof (conn_flags _ _ _ _ _ C) as Q4.
    repeat (split; [assumption || reflexivity|]). exact HW. }
  destruct (main_shape fl w) as
    [ t t' m Hpre Hfmt Hnot | rev golden T C Hlt | rev golden T err C Hle Hmode HL
    | rev golden T l cp s C Hle Hmode HL Hge
    | rev golden T s l err C Hres entries HT
    | rev golden T s l err C Hres entries p' HT HR
    | rev golden T s l C Hres entries p' HT HR ];
    unfold trace in *; cbn [fst] in *; intros Hin.
  all: try (exfalso; try (apply (In_connect_prefix _ _ _ _ Hpre) in Hin); in_trace Hin; fail).
  - in_trace Hin. injection Hin as <-.
    apply (K rev golden T s l C Hres eq_refl).
    intros rev' cp n Hw. exfalso. in_trace Hw.
  - in_trace Hin. injection Hin as <-.
    apply (K rev golden T s l C Hres eq_refl).
    intros rev' cp n Hw. in_trace Hw. injection Hw as _ _ <-. reflexivity.
Qed.

Lemma graph_reads_resolved_range_witness :
  exists startID endID lastMapRev,
    0 <= endID <= 1500
    /\ startID < endID
    /\ tiledb_LatestRevision world_grown = Ok (lastMapRev, CP1, startID)
    /\ In ("sqlite3", "sum.db", SelectLeafMetadataRange startID endID)
          (queries (sink_rows pipeline_grown)).
Proof.
  assert (Hin : In (EvRun pipeline_grown) (trace (main flags_incremental world_grown))).
  { vm_compute. do 10 right. left. reflexivity. }
  destruct (graph_reads_resolved_range flags_incremental world_grown pipeline_grown Hin)
    as (s & e & l & Hb & Hm & Hq & _).
  change (incrementalUpdate flags_incremental) with true in Hm. cbv iota in Hm.
  destruct Hm as (Hlt & cp & HL).
  assert (Hcp : cp = CP1).
  { change (tiledb_LatestRevision world_grown) with (@Ok (Z * bytes * Z) (0, CP1, 1000)) in HL.
    injection HL as _ <- _. reflexivity. }
  subst cp.
  exists s, e, l. split; [|split; [exact Hlt | split; [exact HL | exact Hq]]].
  assert (HT : Z.of_nat (List.length (leafMetadata (sumdb_file world_grown))) = 1500)
    by (vm_compute; reflexivity).
  rewrite HT in Hb. exact Hb.
Defined.

(** ** The rows a range selects *)

Lemma rows_in_range_In f a c r :
  In r (rows_in_range f a c) <-> In r (leafMetadata f) /\ a <= leaf_id r < c.
Proof.
  unfold rows_in_range. rewrite filter_In, andb_true_iff, Z.leb_le, Z.ltb_lt. tauto.
Qed.

(** The range [a, c) of the mirror is made of the ranges [a, b) and [b, c):
    every row of [a, c) is in exactly one of them, and no row is lost or
    repeated.  So the entries an incremental build reads from [startID] on
    are exactly those a build up to [startID] left out. *)
Theorem rows_in_range_split f a b c :
  a <= b <= c ->
  Permutation (rows_in_range f a c) (rows_in_range f a b ++ rows_in_range f b c)
  /\ (forall r, In r (rows_in_range f a b) -> In r (rows_in_range f b c) -> False)
  /\ (forall r, In r (rows_in_range f a c) <->
                In r (rows_in_range f a b) \/ In r (rows_in_range f b c)).
Proof.
  intros Hb. split; [|split].
  - unfold rows_in_range. induction (leafMetadata f) as [|r rows IH]; cbn; [constructor|].
    destruct (Z.leb_spec a (leaf_id r)), (Z.ltb_spec (leaf_id r) c),
             (Z.ltb_spec (leaf_id r) b), (Z.leb_spec b (leaf_id r));
      cbn; try lia; try exact IH.
    + apply perm_skip. exact IH.
    + apply Permutation_cons_app. exact IH.
  - intros r H1 H2. apply rows_in_range_In in H1. apply rows_in_range_In in H2. lia.
  - intros r. rewrite !rows_in_range_In. split.
    + intros [Hin H]. destruct (Z.lt_ge_cases (leaf_id r) b); [left | right]; split; auto; lia.
    + intros [[Hin H] | [Hin H]]; split; auto; lia.
Qed.

Lemma rows_in_range_split_witness :
  Permutation (rows_in_range (mirror [] 8) 0 6)
              (rows_in_range (mirror [] 8) 0 2 ++ rows_in_range (mirror [] 8) 2 6).
Proof.
  assert (H : 0 <= 2 <= 6) by lia.
  exact (proj1 (rows_in_range_split (mirror [] 8) 0 2 6 H)).
Defined.

Lemma filter_length_Permutation {A} (p : A -> bool) l l' :
  Permutation l l' -> List.length (filter p l) = List.length (filter p l').
Proof.
  induction 1 as [|x l l' _ IH|x y l|l l' l'' _ IH1 _ IH2]; cbn.
  - reflexivity.
  - destruct (p x); cbn; congruence.
  - destruct (p x), (p y); reflexivity.
  - congruence.
Qed.

Lemma filter_length_map {A B} (g : A -> B) (p : B -> bool) l :
  List.length (filter (fun x => p (g x)) l) = List.length (filter p (map g l)).
Proof.
  induction l as [|x l IH]; cbn; [reflexivity|]. destruct (p (g x)); cbn; congruence.
Qed.

Lemma filter_length_seq s e n :
  0 <= s <= e ->
  List.length (filter (fun i => (s <=? i) && (i <? e)) (map Z.of_nat (seq 0 n)))
    = Z.to_nat (Z.min e (Z.of_nat n) - Z.min s (Z.of_nat n)).
Proof.
  intros Hse. induction n as [|n IH]; [cbn; lia|].
  rewrite seq_S, map_app, filter_app, length_app, IH. cbn [map filter Nat.add].
  destruct (Z.leb_spec s (Z.of_nat n)), (Z.ltb_spec (Z.of_nat n) e); cbn; lia.
Qed.

(** When the ids of the mirror's [n] entries are [0 .. n-1], as the log's
    leaf indices are, the range [startID, endID) selects exactly
    [endID - startID] rows for [0 <= startID <= endID <= n]: a full build with
    [endID] reads that many entries, which is the count its commit records. *)
Theorem rows_in_range_length f n s e :
  Permutation (map leaf_id (leafMetadata f)) (map Z.of_nat (seq 0 n)) ->
  0 <= s <= e -> e <= Z.of_nat n ->
  List.length (rows_in_range f s e) = Z.to_nat (e - s).
Proof.
  intros Hids Hse Hen. unfold rows_in_range.
  rewrite (filter_length_map leaf_id (fun i => (s <=? i) && (i <? e))).
  rewrite (filter_length_Permutation _ _ _ Hids).
  rewrite filter_length_seq by lia. lia.
Qed.

Lemma rows_in_range_length_witness :
  List.length (rows_in_range (mirror [] 8) 2 6) = 4%nat.
Proof.
  assert (Hids : Permutation (map leaf_id (leafMetadata (mirror [] 8)))
                             (map Z.of_nat (seq 0 8))) by apply Permutation_refl.
  assert (Hse : 0 <= 2 <= 6) by lia.
  assert (Hen : 6 <= Z.of_nat 8) by lia.
  exact (rows_in_range_length (mirror [] 8) 8 2 6 Hids Hse Hen).
Defined.

(** ** Logging *)


(** ** Order of store accesses *)

Lemma Connected_justifies_connect fl w rev golden T e :
  Connected fl w rev golden T -> In e (connect_trace fl) -> access_justified fl w e.
Proof.
  intros C Hin. cbn in Hin.
  destruct Hin as [<-|[<-|[<-|[<-|[<-|[<-|[]]]]]]]; cbn.
  - repeat split; [exact (conn_sum_db _ _ _ _ _ C) | exact (conn_flags _ _ _ _ _ C)].
  - repeat split; [exact (conn_map_db _ _ _ _ _ C) | exact (conn_sql_open _ _ _ _ _ C)].
  - exact (conn_new_tiledb _ _ _ _ _ C).
  - exact (conn_init _ _ _ _ _ C).
  - exists rev. exact (conn_rev _ _ _ _ _ C).
  - split; [exact (conn_cp_fault _ _ _ _ _ C)|].
    destruct (conn_cp _ _ _ _ _ C) as [dt L]. intros E. rewrite E in L. discriminate.
Qed.

(** [main] touches nothing before its preconditions hold.  The mirror is
    opened only with a [sum_db] flag and compatible mode flags; the tile
    database is opened only after the mirror opened, initialised only after it
    opened, and asked for a revision number only after it was initialised;
    the mirror is queried only after that number was obtained, and counted
    only after a checkpoint was read; the latest revision is asked for only in
    incremental mode, and like every step of building and running the graph
    only after both stores gave their metadata and the cap check passed; a
    commit is only ever written for the revision number handed out. *)
Theorem main_store_access_order fl w e :
  In e (trace (main fl w)) -> access_justified fl w e.
Proof.
  destruct (main_connect_cases fl w)
    as [(t & t' & m & E & Hpre & _ & Hnot) | (rev & golden & T & C)].
  - (* the run ended while connecting *)
    rewrite E. unfold trace. cbn [fst]. clear Hpre. revert E.
    unfold main.
    destruct (buildVersionList fl && incrementalUpdate fl) eqn:Hflags.
    { intros E. injection E as <- _. contradiction. }
    unfold newSumDBMirrorFromFlags.
    destruct (is_empty (sumDBString fl)) eqn:Hsum.
    { intros E. injection E as <- _. contradiction. }
    destruct (sql_Open w (sumDBString fl)) eqn:Hopen.
    { intros E. injection E as <- _. cbn. intros [<-|[]]. cbn. auto. }
    unfold sinkFromFlags.
    destruct (is_empty (mapDBString fl)) eqn:Hmap.
    { intros E. injection E as <- _. cbn. intros [<-|[]]. cbn. auto. }
    destruct (mapdb_NewTileDB w (mapDBString fl)) eqn:Hnew.
    { intros E. injection E as <- _. cbn. intros [<-|[<-|[]]]; cbn; auto. }
    destruct (tiledb_Init w) eqn:Hinit.
    { intros E. injection E as <- _. cbn. intros [<-|[<-|[<-|[]]]]; cbn; auto. }
    destruct (tiledb_NextWriteRevision w) as [rev|err] eqn:Hrev.
    2:{ intros E. injection E as <- _. cbn. intros [<-|[<-|[<-|[<-|[]]]]]; cbn; auto. }
    unfold getEntryMetadata, scan_checkpoint, scan_count.
    cbn -[resolveRange buildTiles Run WriteRevision latest_row].
    destruct (checkpoint_scan_fault w) eqn:Hcpf.
    { intros E. injection E as <- _. cbn.
      intros [<-|[<-|[<-|[<-|[<-|[]]]]]]; cbn; eauto. }
    destruct (latest_row (checkpoints (sumdb_file w))) as [[dt golden]|] eqn:Hcp.
    2:{ intros E. injection E as <- _. cbn.
        intros [<-|[<-|[<-|[<-|[<-|[]]]]]]; cbn; eauto. }
    assert (Hne : checkpoints (sumdb_file w) <> []).
    { intros E0. rewrite E0 in Hcp. discriminate. }
    destruct (count_scan_fault w) eqn:Hcf.
    { intros E. injection E as <- _. cbn.
      intros [<-|[<-|[<-|[<-|[<-|[<-|[]]]]]]]; cbn; eauto. }
    exfalso. apply (Hnot rev golden (Z.of_nat (List.length (leafMetadata (sumdb_file w))))).
    constructor; try assumption; try reflexivity. exists dt. exact Hcp.
  - (* the stores are connected *)
    assert (J : forall T', T' = T -> count fl <= T' ->
                exists rev golden T, Connected fl w rev golden T /\ count fl <= T).
    { intros T' -> Hle. exists rev, golden, T. split; assumption. }
    pose proof (Connected_justifies_connect fl w rev golden T) as JC.
    destruct (main_shape fl w) as
      [ t t' m Hpre Hfmt Hnot | rev0 golden0 T0 C0 Hlt | rev0 golden0 T0 err C0 Hle Hmode HL
      | rev0 golden0 T0 l cp s C0 Hle Hmode HL Hge
      | rev0 golden0 T0 s l err C0 [Hle Hres] entries HT
      | rev0 golden0 T0 s l err C0 [Hle Hres] entries p HT HR
      | rev0 golden0 T0 s l C0 [Hle Hres] entries p HT HR ];
      unfold trace; cbn [fst]; intros Hin.
    1: exfalso; exact (Hnot _ _ _ C).
    all: destruct (Connected_unique _ _ _ _ _ _ _ _ C C0) as (-> & -> & ->).
    all: specialize (JC e C).
    all: repeat (apply in_app_or in Hin; destruct Hin as [Hin|Hin]); auto.
    all: try (progress unfold range_trace in Hin;
              destruct (incrementalUpdate fl) eqn:Hm; [|contradiction]).
    all: cbn in Hin;
      repeat (destruct Hin as [<-|Hin];
              [ cbn;
                first [ exact (J T eq_refl Hle)
                      | split; [first [reflexivity | assumption] | exact (J T eq_refl Hle)]
                      | exact (conn_rev _ _ _ _ _ C)
                      | unfold tree_call; destruct (incrementalUpdate fl); cbn;
                        exact (J T eq_refl Hle) ]
              |]);
      contradiction.
Qed.

(** The failed run of [count=2000] had initialised the tile database. *)
Lemma main_store_access_order_witness :
  mapdb_NewTileDB world_1000 "map.db" = None.
Proof.
  assert (Hin : In EvTileDBInit (trace (main flags_count_2000 world_1000))).
  { vm_compute. do 2 right. left. reflexivity. }
  exact (main_store_access_order flags_count_2000 world_1000 EvTileDBInit Hin).
Defined.

(** ** The Tritter service stubs *)




(** ** The feed-to-github script *)







(** ** The Tritter file descriptor *)




